(** * flock: timed, advisory file locks

    A shallow embedding of [flock.go] (package [flock]) and the properties of
    its lock life cycle: [Lock], [Unlock], [Refresh] and the helpers
    [removeIfExpired], [lockfile] and [lockDur].

    The Go methods talk to the operating system through [os.Stat],
    [os.Remove], [os.OpenFile], [File.Close], [os.Chtimes] and
    [time.Now].  Each method is embedded as a program over these calls (a
    free monad, [prog]), so that one and the same definition can be
    - read against an arbitrary environment ([runs]: any answer to any call),
    - executed against a model file system ([run] over [World]), and
    - interleaved with other callers, one call at a time ([sched]). *)

From stdpp Require Import gmap strings list.
From Stdlib Require Import ZArith Lia.

Local Open Scope Z_scope.

(** ** The parts of Go's standard library the package uses *)

(** [time.Time] without a monotonic reading and [time.Duration], both counted
    in nanoseconds.  [Duration] is an [int64] in Go; no claim depends on its
    range, and [Time.Add] is exact far beyond any file time stamp. *)
Module time.
Definition Time : Type := Z.
Definition Duration : Type := Z.

Definition Second : Duration := 1000000000.
Definition Minute : Duration := 60 * Second.

Definition Add (t : Time) (d : Duration) : Time := t + d.
Definition Before (t u : Time) : bool := t <? u.
End time.

(** [syscall.Errno], with the values [Errno.Is] tells apart and a few more. *)
Inductive Errno : Type :=
| ENOENT | EEXIST | ENOTEMPTY | EACCES | EPERM | EIO | ENOSPC | EROFS
| Eother (code : Z).

(** [*fs.PathError]: every error of the [os] calls below has this shape. *)
Record PathError : Type := { Op : string; Path : string; Err : Errno }.

(** The values of Go's interface type [error] that occur in the package: its
    own two sentinels, the two [os] sentinels it tests for, and the path
    errors of the [os] calls.  A nil error is [None]. *)
Inductive error : Type :=
| ErrLocked
| ErrNotLocked
| os_ErrExist
| os_ErrNotExist
| PathErr (pe : PathError).

(** [func (e Errno) Is(target error) bool] of package [syscall]. *)
Definition Errno_Is (e : Errno) (target : error) : bool :=
  match target with
  | os_ErrExist => match e with EEXIST | ENOTEMPTY => true | _ => false end
  | os_ErrNotExist => match e with ENOENT => true | _ => false end
  | _ => false
  end.

(** Identity of two sentinel error values ([==] on the interface values). *)
Definition same (e target : error) : bool :=
  match e, target with
  | ErrLocked, ErrLocked | ErrNotLocked, ErrNotLocked
  | os_ErrExist, os_ErrExist | os_ErrNotExist, os_ErrNotExist => true
  | _, _ => false
  end.

(** [errors.Is]: identity with the target, else the [Is] method found by
    unwrapping.  A [*PathError] is never identical to a sentinel; it unwraps
    to its [Errno]. *)
Definition errors_Is (err : option error) (target : error) : bool :=
  match err with
  | None => false
  | Some (PathErr pe) => Errno_Is (Err pe) target
  | Some e => same e target
  end.

Record FileInfo : Type := { ModTime : time.Time }.
Record File : Type := { Name : string }.

Definition O_WRONLY : Z := 1.
Definition O_CREATE : Z := 64.
Definition O_EXCL : Z := 128.

(** ** Programs over the operating system *)

Inductive call : Type :=
| os_Stat (name : string)
| os_Remove (name : string)
| os_OpenFile (name : string) (flag perm : Z)
| File_Close (f : File)
| os_Chtimes (name : string) (atime mtime : time.Time)
| time_Now.

#[global] Instance File_eq_dec : EqDecision File.
Proof. solve_decision. Defined.
#[global] Instance call_eq_dec : EqDecision call.
Proof. solve_decision. Defined.

(** What each call hands back. *)
Definition ret (c : call) : Type :=
  match c with
  | os_Stat _ => (FileInfo + PathError)%type
  | os_Remove _ => option PathError
  | os_OpenFile _ _ _ => (File + PathError)%type
  | File_Close _ => option PathError
  | os_Chtimes _ _ _ => option PathError
  | time_Now => time.Time
  end.

Inductive prog (A : Type) : Type :=
| Ret (a : A)
| Vis (c : call) (k : ret c → prog A).
Arguments Ret {A} a.
Arguments Vis {A} c k.

Fixpoint bind {A B : Type} (p : prog A) (f : A → prog B) : prog B :=
  match p with
  | Ret a => f a
  | Vis c k => Vis c (λ x, bind (k x) f)
  end.

#[global] Instance prog_ret : MRet prog := @Ret.
#[global] Instance prog_bind : MBind prog := λ A B f p, bind p f.

Definition perform (c : call) : prog (ret c) := Vis c Ret.

(** The error of a two-valued Go result, as an [error] interface value. *)
Definition err_of {A : Type} (r : A + PathError) : option error :=
  match r with
  | inl _ => None
  | inr pe => Some (PathErr pe)
  end.

Definition as_error (r : option PathError) : option error := PathErr <$> r.

(** [err != nil]. *)
Definition notnil (err : option error) : bool :=
  match err with Some _ => true | None => false end.

(** ** The package *)

Record Locker : Type := {
  Lockfile : option (string → string);
  LockDur : time.Duration
}.

Definition defaultDur : time.Duration := time.Minute.

Definition lockfile (l : Locker) (path : string) : string :=
  match Lockfile l with
  | Some f => f path
  | None => path +:+ ".lock"
  end.

Definition lockDur (l : Locker) : time.Duration :=
  if negb (LockDur l =? 0) then LockDur l else defaultDur.

Definition removeIfExpired (l : Locker) (lockfile : string) : prog (option error) :=
  r ← perform (os_Stat lockfile);
  if errors_Is (err_of r) os_ErrNotExist then mret None
  else match r with
       | inr pe => mret (Some (PathErr pe))
       | inl info =>
           now ← perform time_Now;
           if time.Before (time.Add (ModTime info) (lockDur l)) now
           then e ← perform (os_Remove lockfile); mret (as_error e)
           else mret (Some ErrLocked)
       end.

Definition Lock (l : Locker) (path : string) : prog (option error) :=
  let lockfile := lockfile l path in
  err ← removeIfExpired l lockfile;
  if notnil err then mret err
  else
    r ← perform (os_OpenFile lockfile (Z.lor (Z.lor O_CREATE O_EXCL) O_WRONLY) 420);
    if errors_Is (err_of r) os_ErrExist then mret (Some ErrLocked)
    else match r with
         | inr pe => mret (Some (PathErr pe))
         | inl f => e ← perform (File_Close f); mret (as_error e)
         end.

Definition Unlock (l : Locker) (path : string) : prog (option error) :=
  let lockfile := lockfile l path in
  e ← perform (os_Remove lockfile);
  let err := as_error e in
  if errors_Is err os_ErrNotExist then mret None
  else mret err.

Definition Refresh (l : Locker) (path : string) : prog (option error) :=
  let lockfile := lockfile l path in
  err ← removeIfExpired l lockfile;
  if notnil err && negb (errors_Is err ErrLocked) then mret err
  else
    now ← perform time_Now;
    e ← perform (os_Chtimes lockfile now now);
    let err := as_error e in
    if errors_Is err os_ErrNotExist then mret (Some ErrNotLocked)
    else mret err.

(** ** Semantics 1: any environment

    An [event] is a call together with the answer the environment gave.
    [runs p tr a] holds when [p], given the answers recorded in [tr], makes
    exactly the calls of [tr], in that order, and returns [a].  Nothing is
    assumed about the answers: other processes, permissions and failing
    disks are all covered. *)

Definition event : Type := sigT ret.
Definition ev (c : call) (x : ret c) : event := existT c x.

Fixpoint runs {A : Type} (p : prog A) (tr : list event) (a : A) : Prop :=
  match p with
  | Ret a' => tr = [] ∧ a' = a
  | Vis c k => ∃ (x : ret c) (tr' : list event), tr = ev c x :: tr' ∧ runs (k x) tr' a
  end.

(** The path a call names, if any ([Close] works on a handle, not a path). *)
Definition call_path (c : call) : option string :=
  match c with
  | os_Stat name | os_Remove name | os_OpenFile name _ _ | os_Chtimes name _ _ => Some name
  | File_Close _ | time_Now => None
  end.

Definition is_create (c : call) : bool :=
  match c with os_OpenFile _ _ _ => true | _ => false end.
Definition is_touch (c : call) : bool :=
  match c with os_Chtimes _ _ _ => true | _ => false end.

(** ** Semantics 2: a model file system

    A [World] is the set of existing files with their modification times,
    and a clock.  Every call is atomic, fails only for the reason the file
    system state gives ("no such file", "file exists"), and the clock stands
    still unless [wait] moves it. *)

Record World : Type := { files : gmap string time.Time; clock : time.Time }.

Definition has_flag (flag bit : Z) : bool := Z.land flag bit =? bit.

Definition exec (c : call) (w : World) : ret c * World :=
  match c with
  | os_Stat name =>
      match files w !! name with
      | Some mt => (inl {| ModTime := mt |}, w)
      | None => (inr {| Op := "stat"; Path := name; Err := ENOENT |}, w)
      end
  | os_Remove name =>
      match files w !! name with
      | Some _ => (None, {| files := delete name (files w); clock := clock w |})
      | None => (Some {| Op := "remove"; Path := name; Err := ENOENT |}, w)
      end
  | os_OpenFile name flag perm =>
      match files w !! name with
      | Some _ =>
          if has_flag flag O_CREATE && has_flag flag O_EXCL
          then (inr {| Op := "open"; Path := name; Err := EEXIST |}, w)
          else (inl {| Name := name |}, w)
      | None =>
          if has_flag flag O_CREATE
          then (inl {| Name := name |},
                {| files := <[name := clock w]> (files w); clock := clock w |})
          else (inr {| Op := "open"; Path := name; Err := ENOENT |}, w)
      end
  | File_Close f => (None, w)
  | os_Chtimes name atime mtime =>
      match files w !! name with
      | Some _ => (None, {| files := <[name := mtime]> (files w); clock := clock w |})
      | None => (Some {| Op := "chtimes"; Path := name; Err := ENOENT |}, w)
      end
  | time_Now => (clock w, w)
  end.

(** The outcome of running a program to its end: the value returned, the
    world it leaves, and the calls it made with their answers. *)
Record outcome (A : Type) : Type :=
  Outcome { result : A; world : World; trace : list event }.
Arguments Outcome {A} result world trace.
Arguments result {A} o.
Arguments world {A} o.
Arguments trace {A} o.

Fixpoint run {A : Type} (p : prog A) (w : World) : outcome A :=
  match p with
  | Ret a => Outcome a w []
  | Vis c k =>
      let o := run (k (exec c w).1) (exec c w).2 in
      Outcome (result o) (world o) (ev c (exec c w).1 :: trace o)
  end.

(** Time passing between two operations. *)
Definition wait (d : time.Duration) (w : World) : World :=
  {| files := files w; clock := clock w + d |}.

(** ** Semantics 3: several callers on one file system

    Each caller is a program; a schedule names, call by call, whose turn it
    is.  The caller named makes its next call atomically; a caller that has
    returned (and an index naming nobody) leaves the configuration as it is. *)

Definition config (A : Type) : Type := (World * list (prog A))%type.

Definition step {A : Type} (cfg : config A) (i : nat) : config A :=
  match cfg.2 !! i with
  | Some (Vis c k) => ((exec c cfg.1).2, <[i := k (exec c cfg.1).1]> cfg.2)
  | _ => cfg
  end.

Definition sched {A : Type} (s : list nat) (cfg : config A) : config A :=
  foldl step cfg s.

Definition returned {A : Type} (p : prog A) : option A :=
  match p with Ret a => Some a | Vis _ _ => None end.

(** ** Vocabulary of the statements *)

(** A marker stamped [mt] is expired exactly when the code's test, [ModTime]
    plus [lockDur] is [Before] [Now], succeeds. *)
Definition expired (l : Locker) (mt : time.Time) (w : World) : bool :=
  time.Before (time.Add mt (lockDur l)) (clock w).

Definition without (name : string) (w : World) : World :=
  {| files := delete name (files w); clock := clock w |}.

Definition stamped (name : string) (t : time.Time) (w : World) : World :=
  {| files := <[name := t]> (files w); clock := clock w |}.

Definition excl_flags : Z := Z.lor (Z.lor O_CREATE O_EXCL) O_WRONLY.

Definition enoent (op name : string) : PathError :=
  {| Op := op; Path := name; Err := ENOENT |}.

Definition vanished (name : string) : PathError := enoent "remove" name.

Definition exists_already (name : string) : PathError :=
  {| Op := "open"; Path := name; Err := EEXIST |}.

Definition denied (op name : string) : PathError :=
  {| Op := op; Path := name; Err := EACCES |}.

Definition calls (tr : list event) : list call := projT1 <$> tr.

(** [within n p]: [p] returns after at most [n] calls, whatever the answers. *)
Fixpoint within {A : Type} (n : nat) (p : prog A) {struct p} : Prop :=
  match p with
  | Ret _ => True
  | Vis c k =>
      match n with
      | O => False
      | S m => ∀ x, within m (k x)
      end
  end.

(** The number of turns a schedule gives to caller [i]. *)
Definition turns (i : nat) (s : list nat) : nat := count_occ Nat.eq_dec s i.

(** *** The states of a caller of [Lock] that finds no stale marker

    Each state is described by what the caller does next; [t] is the time
    on the clock, which is also the stamp of a marker created meanwhile. *)

(** Returned [ErrLocked]. *)
Definition refused (p : prog (option error)) : Prop := p = Ret (Some ErrLocked).

(** Returned nil: holds the lock. *)
Definition holding (p : prog (option error)) : Prop := p = Ret None.

(** Has created the marker and is about to close the handle. *)
Definition closing (p : prog (option error)) : Prop :=
  ∃ f k, p = Vis (File_Close f) k ∧ k None = Ret None.

(** Has seen a marker stamped [t] and is about to read the clock. *)
Definition judging (t : time.Time) (p : prog (option error)) : Prop :=
  ∃ k, p = Vis time_Now k ∧ k t = Ret (Some ErrLocked).

(** Has seen no marker and is about to create it. *)
Definition creating (l : Locker) (path : string) (p : prog (option error)) : Prop :=
  ∃ k, p = Vis (os_OpenFile (lockfile l path) excl_flags 420) k ∧
       k (inr (exists_already (lockfile l path))) = Ret (Some ErrLocked) ∧
       closing (k (inl {| Name := lockfile l path |})).

(** Has made no call yet. *)
Definition starting (l : Locker) (path : string) (t : time.Time)
    (p : prog (option error)) : Prop :=
  ∃ k, p = Vis (os_Stat (lockfile l path)) k ∧
       creating l path (k (inr (enoent "stat" (lockfile l path)))) ∧
       judging t (k (inl {| ModTime := t |})).

(** Either nobody has created the marker yet, or exactly one caller has. *)
Definition contended (l : Locker) (path : string) (t : time.Time)
    (ts : list (prog (option error))) : Prop :=
  Forall (λ p, starting l path t p ∨ creating l path p) ts.

Definition won (l : Locker) (path : string) (t : time.Time)
    (ts : list (prog (option error))) : Prop :=
  ∃ i p, ts !! i = Some p ∧ (closing p ∨ holding p) ∧
    ∀ j p', j ≠ i → ts !! j = Some p' →
      starting l path t p' ∨ creating l path p' ∨ judging t p' ∨ refused p'.

Definition safe (l : Locker) (path : string) (t : time.Time)
    (cfg : config (option error)) : Prop :=
  clock cfg.1 = t ∧
  ((files cfg.1 !! lockfile l path = None ∧ contended l path t cfg.2) ∨
   (files cfg.1 !! lockfile l path = Some t ∧ won l path t cfg.2)).

(** A holder that keeps its lock: it waits [d] and calls [Refresh], for each
    [d] of [ds] in turn.  The results of the calls and the world they leave. *)
Fixpoint refresh_after (l : Locker) (path : string) (ds : list time.Duration)
    (w : World) : list (option error) * World :=
  match ds with
  | [] => ([], w)
  | d :: ds' =>
      let o := run (Refresh l path) (wait d w) in
      let rest := refresh_after l path ds' (world o) in
      (result o :: rest.1, rest.2)
  end.

(** ** Sample inputs *)

(** The zero value of [Locker], which the package documents as ready to use. *)
Definition zeroLocker : Locker := {| Lockfile := None; LockDur := 0 |}.

(** A [Locker] that keeps its markers in a directory of their own. *)
Definition dirLocker : Locker :=
  {| Lockfile := Some (λ p, "locks/" +:+ p); LockDur := 0 |}.

(** A marker for ["job"] written at time 0, seen [age] nanoseconds later. *)
Definition marked_at_age (age : time.Duration) : World :=
  {| files := {[ "job.lock" := 0 ]}; clock := age |}.

Definition nothing_at (t : time.Time) : World := {| files := ∅; clock := t |}.

(** A marker for ["job"] left behind two minutes ago: stale for the
    one-minute lease of [zeroLocker]. *)
Definition stale : World := marked_at_age 120000000000.

(** The answers of an environment in which the marker, read as two minutes
    old, is gone by the time it is to be removed. *)
Definition vanishing_trace : list event :=
  [ev (os_Stat "job.lock") (inl {| ModTime := 0 |});
   ev time_Now 120000000000;
   ev (os_Remove "job.lock") (Some (vanished "job.lock"))].

(** The answers of an environment in which another caller creates the
    marker between the time stamp read and the create. *)
Definition lost_race_trace : list event :=
  [ev (os_Stat "job.lock") (inr (enoent "stat" "job.lock"));
   ev (os_OpenFile "job.lock" excl_flags 420) (inr (exists_already "job.lock"))].

(** Schedules for two callers, [0] and [1], of [Lock] on [stale].  In all
    three both read the stale time stamp and the clock before either
    deletes.  In [both_see_stale] caller [0] then deletes, creates and
    closes, and caller [1] then deletes (the marker caller [0] has just
    created), creates and closes. *)
Definition both_see_stale : list nat := [0; 0; 1; 1; 0; 0; 0; 1; 1; 1]%nat.

(** Caller [1] deletes, creates and closes; caller [0] then deletes the
    fresh marker of caller [1] and goes on. *)
Definition late_delete : list nat := [0; 0; 1; 1; 1; 1; 1; 0; 0; 0]%nat.

(** Caller [1] deletes; caller [0] attempts its own deletion before caller
    [1] creates. *)
Definition marker_vanishes : list nat := [0; 0; 1; 1; 1; 0; 1; 1]%nat.

(** ** Tactics *)

(** Follow a program along a given trace: name the answers, split on every
    test the program makes on them. *)
Ltac unroll H :=
  cbn in H;
  repeat first
    [ match type of H with
      | ∃ _, _ => let x := fresh "x" in destruct H as [x H]
      | _ = _ ∧ _ => let E := fresh "E" in destruct H as [E H]
      | runs (if ?b then _ else _) _ _ => let E := fresh "E" in destruct b eqn:E
      | runs (match ?x with _ => _ end) _ _ => let E := fresh "E" in destruct x eqn:E
      | runs (bind (if ?b then _ else _) _) _ _ => let E := fresh "E" in destruct b eqn:E
      | runs (bind (match ?x with _ => _ end) _) _ _ => let E := fresh "E" in destruct x eqn:E
      end
    | progress cbn in H ];
  subst.

(** Locate an event inside an explicit trace. *)
Ltac locate :=
  repeat match goal with
    | H : _ :: _ = ?pre ++ _ :: _ |- _ => destruct pre; simplify_eq/=
    | H : [] = ?pre ++ _ :: _ |- _ => destruct pre; discriminate H
    end.

(** Check a property of every call of an explicit trace. *)
Ltac each_call :=
  cbn; repeat first [ apply Forall_nil_2 | apply Forall_cons_2; [cbn; auto|] ].

(** Bound the number of calls of a program. *)
Ltac bound :=
  repeat first
    [ exact I
    | progress cbn
    | intro
    | match goal with
      | |- within _ (if ?b then _ else _) => destruct b
      | |- within _ (match ?x with _ => _ end) => destruct x
      | |- within _ (bind (if ?b then _ else _) _) => destruct b
      | |- within _ (bind (match ?x with _ => _ end) _) => destruct x
      end ].

(** Exhibit a prefix before the last calls of an explicit trace. *)
Ltac found :=
  solve [ eexists []; repeat esplit; eauto
        | eexists [_]; repeat esplit; eauto
        | eexists [_; _]; repeat esplit; eauto
        | eexists [_; _; _]; repeat esplit; eauto ].

(** Locate an event inside an explicit trace, the arguments of its call
    being unknowns: settle the call first, then the answer. *)
Ltac locate_call :=
  repeat match goal with
    | H : _ :: _ = ?pre ++ _ :: _ |- _ =>
        destruct pre; cbn in H; apply (inj2 cons) in H as [H ?];
        [ let Hc := fresh "Hc" in
          pose proof (f_equal projT1 H) as Hc; cbn in Hc;
          revert H; simplify_eq/=; intros H; simplify_eq/=
        | simplify_eq/= ]
    | H : [] = ?pre ++ _ :: _ |- _ => destruct pre; discriminate H
    end.

(** * Properties *)

(** ** The operations on the model file system, case by case *)

(** The flags [Lock] opens the marker with ask for an exclusive create. *)
Lemma excl_flags_create_excl :
  has_flag excl_flags O_CREATE = true ∧ has_flag excl_flags O_EXCL = true.
Proof. split; reflexivity. Qed.

Section on_the_file_system.
Context (l : Locker) (path : string).

Let q : string := lockfile l path.

Lemma run_removeIfExpired (w : World) :
  run (removeIfExpired l q) w =
  match files w !! q with
  | None => Outcome None w [ev (os_Stat q) (inr (enoent "stat" q))]
  | Some mt =>
      if expired l mt w
      then Outcome None (without q w)
             [ev (os_Stat q) (inl {| ModTime := mt |}); ev time_Now (clock w);
              ev (os_Remove q) None]
      else Outcome (Some ErrLocked) w
             [ev (os_Stat q) (inl {| ModTime := mt |}); ev time_Now (clock w)]
  end.
Proof.
  unfold removeIfExpired, expired. cbn.
  destruct (files w !! q) as [mt|] eqn:E; cbn; [|reflexivity].
  destruct (time.Before _ _); cbn; [|reflexivity].
  rewrite E. reflexivity.
Qed.

Lemma run_Lock (w : World) :
  run (Lock l path) w =
  match files w !! q with
  | None =>
      Outcome None (stamped q (clock w) w)
        [ev (os_Stat q) (inr (enoent "stat" q));
         ev (os_OpenFile q excl_flags 420) (inl {| Name := q |});
         ev (File_Close {| Name := q |}) None]
  | Some mt =>
      if expired l mt w
      then Outcome None (stamped q (clock w) (without q w))
             [ev (os_Stat q) (inl {| ModTime := mt |}); ev time_Now (clock w);
              ev (os_Remove q) None;
              ev (os_OpenFile q excl_flags 420) (inl {| Name := q |});
              ev (File_Close {| Name := q |}) None]
      else Outcome (Some ErrLocked) w
             [ev (os_Stat q) (inl {| ModTime := mt |}); ev time_Now (clock w)]
  end.
Proof.
  unfold Lock, removeIfExpired, expired. fold q. cbn.
  destruct (files w !! q) as [mt|] eqn:E; cbn.
  - destruct (time.Before _ _); cbn; [|reflexivity].
    rewrite E. cbn. rewrite lookup_delete_eq. reflexivity.
  - rewrite E. reflexivity.
Qed.

Lemma run_Unlock (w : World) :
  run (Unlock l path) w =
  match files w !! q with
  | None => Outcome None w [ev (os_Remove q) (Some (enoent "remove" q))]
  | Some _ => Outcome None (without q w) [ev (os_Remove q) None]
  end.
Proof.
  unfold Unlock. fold q. cbn.
  destruct (files w !! q); reflexivity.
Qed.

Lemma run_Refresh (w : World) :
  run (Refresh l path) w =
  match files w !! q with
  | None =>
      Outcome (Some ErrNotLocked) w
        [ev (os_Stat q) (inr (enoent "stat" q)); ev time_Now (clock w);
         ev (os_Chtimes q (clock w) (clock w)) (Some (enoent "chtimes" q))]
  | Some mt =>
      if expired l mt w
      then Outcome (Some ErrNotLocked) (without q w)
             [ev (os_Stat q) (inl {| ModTime := mt |}); ev time_Now (clock w);
              ev (os_Remove q) None; ev time_Now (clock w);
              ev (os_Chtimes q (clock w) (clock w)) (Some (enoent "chtimes" q))]
      else Outcome None (stamped q (clock w) w)
             [ev (os_Stat q) (inl {| ModTime := mt |}); ev time_Now (clock w);
              ev time_Now (clock w); ev (os_Chtimes q (clock w) (clock w)) None]
  end.
Proof.
  unfold Refresh, removeIfExpired, expired. fold q. cbn.
  destruct (files w !! q) as [mt|] eqn:E; cbn.
  - destruct (time.Before _ _); cbn.
    + rewrite E. cbn. rewrite lookup_delete_eq. reflexivity.
    + rewrite E. reflexivity.
  - rewrite E. reflexivity.
Qed.
End on_the_file_system.

(** The model file system is one of the environments [runs] ranges over. *)
Lemma run_runs {A : Type} (p : prog A) (w : World) :
  runs p (trace (run p w)) (result (run p w)).
Proof.
  revert w. induction p as [a|c k IH]; intros w; cbn.
  - split; reflexivity.
  - eexists _, _. split; [reflexivity|]. apply IH.
Qed.

(** ** Acquiring against a live marker *)

(** C1. For every resource path whose marker exists with an age below the
    lease duration, [Lock] returns [ErrLocked] at once: it makes no call
    after reading the time stamp and the clock (so it never attempts the
    create), and the file system, the marker included, is left as it was. *)
Theorem Lock_live_marker (l : Locker) (path : string) (w : World) (mt : time.Time) :
  files w !! lockfile l path = Some mt →
  clock w - mt < lockDur l →
  run (Lock l path) w =
    Outcome (Some ErrLocked) w
      [ev (os_Stat (lockfile l path)) (inl {| ModTime := mt |});
       ev time_Now (clock w)].
Proof.
  intros Hq Hage. rewrite run_Lock, Hq.
  unfold expired, time.Before, time.Add.
  destruct (Z.ltb_spec (mt + lockDur l) (clock w)); [lia | reflexivity].
Qed.

Lemma Lock_live_marker_witness :
  files (marked_at_age 59999999999) !! lockfile zeroLocker "job" = Some 0 ∧
  clock (marked_at_age 59999999999) - 0 < lockDur zeroLocker ∧
  run (Lock zeroLocker "job") (marked_at_age 59999999999) =
    Outcome (Some ErrLocked) (marked_at_age 59999999999)
      [ev (os_Stat "job.lock") (inl {| ModTime := 0 |});
       ev time_Now 59999999999].
Proof.
  split; [reflexivity|]. split; [reflexivity|].
  apply (Lock_live_marker zeroLocker "job" (marked_at_age 59999999999) 0);
    reflexivity.
Defined.

(** ** Reclaiming an expired marker *)

(** C2, as stated, fails at the boundary: a marker whose age equals the lease
    duration is not expired for the code, and [Lock] answers [ErrLocked]. *)
Lemma Lock_at_exact_lease_is_refused :
  files (marked_at_age 60000000000) !! lockfile zeroLocker "job" = Some 0 ∧
  clock (marked_at_age 60000000000) - 0 >= lockDur zeroLocker ∧
  result (run (Lock zeroLocker "job") (marked_at_age 60000000000)) = Some ErrLocked ∧
  world (run (Lock zeroLocker "job") (marked_at_age 60000000000)) = marked_at_age 60000000000.
Proof. vm_compute. repeat split; congruence. Qed.

(** C2, amended. For every marker whose age is strictly greater than the
    lease duration, [Lock] treats it as expired: it deletes the marker,
    creates it anew (stamped with the current time) and succeeds.  A marker
    whose age equals the lease duration exactly is still in force: [Lock]
    returns [ErrLocked] and changes nothing. *)
Theorem Lock_expired_marker (l : Locker) (path : string) (w : World) (mt : time.Time) :
  files w !! lockfile l path = Some mt →
  (lockDur l < clock w - mt →
   run (Lock l path) w =
     Outcome None (stamped (lockfile l path) (clock w) (without (lockfile l path) w))
       [ev (os_Stat (lockfile l path)) (inl {| ModTime := mt |});
        ev time_Now (clock w);
        ev (os_Remove (lockfile l path)) None;
        ev (os_OpenFile (lockfile l path) excl_flags 420)
           (inl {| Name := lockfile l path |});
        ev (File_Close {| Name := lockfile l path |}) None]) ∧
  (clock w - mt = lockDur l →
   result (run (Lock l path) w) = Some ErrLocked ∧ world (run (Lock l path) w) = w).
Proof.
  intros Hq. rewrite run_Lock, Hq.
  unfold expired, time.Before, time.Add.
  destruct (Z.ltb_spec (mt + lockDur l) (clock w)); split; intros; try lia; auto.
Qed.

Lemma Lock_expired_marker_witness :
  files (marked_at_age 60000000001) !! lockfile zeroLocker "job" = Some 0 ∧
  lockDur zeroLocker < clock (marked_at_age 60000000001) - 0 ∧
  result (run (Lock zeroLocker "job") (marked_at_age 60000000001)) = None ∧
  files (world (run (Lock zeroLocker "job") (marked_at_age 60000000001))) !! "job.lock"
    = Some 60000000001.
Proof.
  split; [reflexivity|]. split; [reflexivity|].
  rewrite (proj1 (Lock_expired_marker zeroLocker "job" (marked_at_age 60000000001) 0
                    eq_refl) eq_refl).
  split; reflexivity.
Defined.

(** ** Refreshing *)

(** C3, as stated, fails at the boundary: at an age equal to the lease
    duration [Refresh] succeeds and re-stamps the marker. *)
Lemma Refresh_at_exact_lease_succeeds :
  files (marked_at_age 60000000000) !! lockfile zeroLocker "job" = Some 0 ∧
  clock (marked_at_age 60000000000) - 0 >= lockDur zeroLocker ∧
  result (run (Refresh zeroLocker "job") (marked_at_age 60000000000)) = None ∧
  files (world (run (Refresh zeroLocker "job") (marked_at_age 60000000000))) !! "job.lock"
    = Some 60000000000.
Proof. vm_compute. repeat split; congruence. Qed.

(** C3, amended. For every path whose marker has an age strictly greater
    than the lease duration, [Refresh] deletes the stale marker and returns
    [ErrNotLocked]; the marker is gone afterwards (the touch, attempted after
    the deletion, does not bring it back).  [Refresh] on a path with no
    marker returns [ErrNotLocked] and changes nothing.  For every marker
    whose age equals the lease duration exactly, the marker is still in
    force: [Refresh] returns nil, deletes nothing, and stamps the marker
    with the current time. *)
Theorem Refresh_not_locked (l : Locker) (path : string) (w : World) :
  (∀ mt : time.Time, files w !! lockfile l path = Some mt → lockDur l < clock w - mt →
     result (run (Refresh l path) w) = Some ErrNotLocked ∧
     world (run (Refresh l path) w) = without (lockfile l path) w ∧
     files (world (run (Refresh l path) w)) !! lockfile l path = None) ∧
  (files w !! lockfile l path = None →
     result (run (Refresh l path) w) = Some ErrNotLocked ∧
     world (run (Refresh l path) w) = w) ∧
  (∀ mt : time.Time, files w !! lockfile l path = Some mt → clock w - mt = lockDur l →
     result (run (Refresh l path) w) = None ∧
     world (run (Refresh l path) w) = stamped (lockfile l path) (clock w) w ∧
     files (world (run (Refresh l path) w)) !! lockfile l path = Some (clock w) ∧
     calls (trace (run (Refresh l path) w)) =
       [os_Stat (lockfile l path); time_Now; time_Now;
        os_Chtimes (lockfile l path) (clock w) (clock w)]).
Proof.
  split; [|split].
  - intros mt Hq Hage. rewrite run_Refresh, Hq.
    unfold expired, time.Before, time.Add.
    destruct (Z.ltb_spec (mt + lockDur l) (clock w)); [|lia].
    cbn. rewrite lookup_delete_eq. auto.
  - intros Hq. rewrite run_Refresh, Hq. auto.
  - intros mt Hq Hage. rewrite run_Refresh, Hq.
    unfold expired, time.Before, time.Add.
    destruct (Z.ltb_spec (mt + lockDur l) (clock w)); [lia|].
    cbn. rewrite lookup_insert_eq. auto.
Qed.

Lemma Refresh_not_locked_witness :
  (files (marked_at_age 60000000001) !! lockfile zeroLocker "job" = Some 0 ∧
   lockDur zeroLocker < clock (marked_at_age 60000000001) - 0 ∧
   result (run (Refresh zeroLocker "job") (marked_at_age 60000000001)) = Some ErrNotLocked ∧
   world (run (Refresh zeroLocker "job") (marked_at_age 60000000001))
     = without "job.lock" (marked_at_age 60000000001) ∧
   files (world (run (Refresh zeroLocker "job") (marked_at_age 60000000001)))
     !! lockfile zeroLocker "job" = None) ∧
  (files (nothing_at 5) !! lockfile zeroLocker "job" = None ∧
   result (run (Refresh zeroLocker "job") (nothing_at 5)) = Some ErrNotLocked ∧
   world (run (Refresh zeroLocker "job") (nothing_at 5)) = nothing_at 5) ∧
  (files (marked_at_age 60000000000) !! lockfile zeroLocker "job" = Some 0 ∧
   clock (marked_at_age 60000000000) - 0 = lockDur zeroLocker ∧
   result (run (Refresh zeroLocker "job") (marked_at_age 60000000000)) = None ∧
   files (world (run (Refresh zeroLocker "job") (marked_at_age 60000000000)))
     !! lockfile zeroLocker "job" = Some 60000000000).
Proof.
  split; [|split].
  - split; [reflexivity|]. split; [reflexivity|].
    apply (proj1 (Refresh_not_locked zeroLocker "job" (marked_at_age 60000000001)) 0);
      reflexivity.
  - split; [reflexivity|].
    apply (proj1 (proj2 (Refresh_not_locked zeroLocker "job" (nothing_at 5)))); reflexivity.
  - split; [reflexivity|]. split; [reflexivity|].
    pose proof (proj2 (proj2 (Refresh_not_locked zeroLocker "job"
                                (marked_at_age 60000000000))) 0 eq_refl eq_refl)
      as (H1 & _ & H3 & _).
    split; [exact H1 | exact H3].
Defined.

(** C7. For every path whose marker is live, [Refresh] succeeds and stamps
    the marker with the current time.  Hence, with a positive lease [d]:
    after a successful [Lock], a wait of [d/2], a [Refresh] (which succeeds)
    and another wait of [d/2], a [Lock] by any caller using the same marker
    and lease still returns [ErrLocked]. *)
Theorem Refresh_extends_lease (l l' : Locker) (path : string) (w : World) :
  (∀ mt : time.Time, files w !! lockfile l path = Some mt → clock w - mt < lockDur l →
     result (run (Refresh l path) w) = None ∧
     world (run (Refresh l path) w) = stamped (lockfile l path) (clock w) w) ∧
  (0 < lockDur l → lockfile l' path = lockfile l path → lockDur l' = lockDur l →
   result (run (Lock l path) w) = None →
   let w1 := wait (lockDur l / 2) (world (run (Lock l path) w)) in
   let w2 := wait (lockDur l / 2) (world (run (Refresh l path) w1)) in
   result (run (Refresh l path) w1) = None ∧
   files (world (run (Refresh l path) w1)) !! lockfile l path = Some (clock w1) ∧
   result (run (Lock l' path) w2) = Some ErrLocked).
Proof.
  assert (Hlive : ∀ v (mt : time.Time), files v !! lockfile l path = Some mt →
            clock v - mt ≤ lockDur l →
            run (Refresh l path) v =
              Outcome None (stamped (lockfile l path) (clock v) v)
                [ev (os_Stat (lockfile l path)) (inl {| ModTime := mt |});
                 ev time_Now (clock v); ev time_Now (clock v);
                 ev (os_Chtimes (lockfile l path) (clock v) (clock v)) None]).
  { intros v mt Hq Hage. rewrite run_Refresh, Hq.
    unfold expired, time.Before, time.Add.
    destruct (Z.ltb_spec (mt + lockDur l) (clock v)); [lia | reflexivity]. }
  split.
  - intros mt Hq Hage. rewrite (Hlive w mt Hq) by lia. auto.
  - intros Hd Hq' Hd' Hlock. cbv zeta.
    assert (Hhalf : 0 ≤ lockDur l / 2 ∧ 2 * (lockDur l / 2) ≤ lockDur l).
    { split; [apply Z.div_pos; lia | apply Z.mul_div_le; lia]. }
    assert (Hw : files (world (run (Lock l path) w)) !! lockfile l path = Some (clock w)
                 ∧ clock (world (run (Lock l path) w)) = clock w).
    { revert Hlock. rewrite run_Lock.
      destruct (files w !! lockfile l path) as [mt|]; [destruct (expired l mt w)|];
        cbn; try discriminate; intros _; rewrite lookup_insert_eq; auto. }
    destruct Hw as [Hf Hc]. clear Hlock.
    generalize dependent (world (run (Lock l path) w)). intros v Hf Hc.
    rewrite run_Lock, Hq'.
    rewrite (Hlive (wait (lockDur l / 2) v) (clock w) Hf) by (cbn; lia).
    cbn. rewrite lookup_insert_eq.
    split; [reflexivity|]. split; [reflexivity|].
    unfold expired, time.Before, time.Add. cbn. rewrite Hd'.
    destruct (Z.ltb_spec (clock v + lockDur l / 2 + lockDur l)
                (clock v + lockDur l / 2 + lockDur l / 2)); [lia | reflexivity].
Qed.

Lemma Refresh_extends_lease_witness :
  (files (marked_at_age 59999999999) !! lockfile zeroLocker "job" = Some 0 ∧
   clock (marked_at_age 59999999999) - 0 < lockDur zeroLocker ∧
   result (run (Refresh zeroLocker "job") (marked_at_age 59999999999)) = None ∧
   world (run (Refresh zeroLocker "job") (marked_at_age 59999999999))
     = stamped "job.lock" 59999999999 (marked_at_age 59999999999)) ∧
  (0 < lockDur zeroLocker ∧
   result (run (Lock zeroLocker "job") (nothing_at 7)) = None ∧
   result (run (Refresh zeroLocker "job")
             (wait 30000000000 (world (run (Lock zeroLocker "job") (nothing_at 7))))) = None ∧
   result (run (Lock zeroLocker "job")
             (wait 30000000000
                (world (run (Refresh zeroLocker "job")
                   (wait 30000000000 (world (run (Lock zeroLocker "job") (nothing_at 7))))))))
     = Some ErrLocked).
Proof.
  split.
  - split; [reflexivity|]. split; [reflexivity|].
    apply (proj1 (Refresh_extends_lease zeroLocker zeroLocker "job"
                    (marked_at_age 59999999999)) 0); reflexivity.
  - split; [reflexivity|]. split; [reflexivity|].
    pose proof (proj2 (Refresh_extends_lease zeroLocker zeroLocker "job" (nothing_at 7))
                  eq_refl eq_refl eq_refl eq_refl) as (H1 & _ & H3).
    split; [exact H1 | exact H3].
Defined.

(** ** Releasing *)

(** In any environment: when the removal reports that the marker does not
    exist, [Unlock] returns nil. *)
Lemma Unlock_absent_any_environment (l : Locker) (path : string)
    (pe : PathError) (tr : list event) (r : option error) :
  runs (Unlock l path) (ev (os_Remove (lockfile l path)) (Some pe) :: tr) r →
  Err pe = ENOENT →
  r = None ∧ tr = [].
Proof.
  cbn. intros (x & tr' & Htr & H) Hpe.
  assert (x = Some pe ∧ tr' = tr) as [-> ->].
  { unfold ev in Htr. by simplify_eq. }
  cbn in H. rewrite Hpe in H. cbn in H. destruct H as [-> <-]. auto.
Qed.

(** C6. On every file system state [Unlock] returns nil and leaves no
    marker; in particular it succeeds where there was none.  A second
    [Unlock] right after it finds the marker gone, returns nil as well and
    changes nothing. *)
Theorem Unlock_idempotent (l : Locker) (path : string) (w : World) :
  let o1 := run (Unlock l path) w in
  let o2 := run (Unlock l path) (world o1) in
  result o1 = None ∧
  files (world o1) !! lockfile l path = None ∧
  (files w !! lockfile l path = None ↔ world o1 = w) ∧
  result o2 = None ∧
  world o2 = world o1.
Proof.
  cbv zeta. rewrite !run_Unlock.
  destruct (files w !! lockfile l path) as [mt|] eqn:Hq; cbn.
  - rewrite lookup_delete_eq. cbn. repeat split; try done.
    intros Hw. rewrite <- Hw in Hq. cbn in Hq. by rewrite lookup_delete_eq in Hq.
  - rewrite Hq. done.
Qed.

(** ** Defaults *)

(** C9. A [Locker] whose [LockDur] is the zero value has a lease of one
    minute, that is 60 * 10^9 nanoseconds: [Lock] answers [ErrLocked], and
    [Refresh] succeeds, exactly as long as the marker is no older than one
    minute. *)
Theorem default_lease_is_one_minute
    (namer : option (string → string)) (path : string) (w : World) (mt : time.Time) :
  let l := {| Lockfile := namer; LockDur := 0 |} in
  files w !! lockfile l path = Some mt →
  lockDur l = 60 * 1000000000 ∧
  (result (run (Lock l path) w) = Some ErrLocked ↔ clock w - mt ≤ 60 * 1000000000) ∧
  (result (run (Refresh l path) w) = None ↔ clock w - mt ≤ 60 * 1000000000).
Proof.
  intros l Hq. rewrite run_Lock, run_Refresh, Hq.
  split; [reflexivity|].
  unfold expired, time.Before, time.Add.
  change (lockDur l) with 60000000000.
  destruct (Z.ltb_spec (mt + 60000000000) (clock w)); cbn;
    split; split; intros; try lia; try discriminate; reflexivity.
Qed.

Lemma default_lease_is_one_minute_witness :
  files (marked_at_age 60000000000)
    !! lockfile {| Lockfile := None; LockDur := 0 |} "job" = Some 0 ∧
  lockDur {| Lockfile := None; LockDur := 0 |} = 60 * 1000000000 ∧
  (result (run (Lock {| Lockfile := None; LockDur := 0 |} "job")
             (marked_at_age 60000000000)) = Some ErrLocked
   ↔ clock (marked_at_age 60000000000) - 0 ≤ 60 * 1000000000) ∧
  (result (run (Refresh {| Lockfile := None; LockDur := 0 |} "job")
             (marked_at_age 60000000000)) = None
   ↔ clock (marked_at_age 60000000000) - 0 ≤ 60 * 1000000000).
Proof.
  split; [reflexivity|].
  apply (default_lease_is_one_minute None "job" (marked_at_age 60000000000) 0).
  reflexivity.
Defined.

(** ** Error policy, in any environment *)

(** C10. If the deletion of an expired marker fails, whatever the reason (a
    "no such file" error because the marker vanished after its time stamp
    was read is one), [Lock] and [Refresh] return that very error, and the
    failed deletion is their last call: neither the create nor the touch is
    attempted.  In full: whenever the environment hands back a time stamp
    and a clock reading that make the marker expired and then fails the
    removal, [Lock] and [Refresh] both make exactly these three calls and
    return the error of the removal; and in any run of either, a failed
    removal is preceded by exactly such a time stamp and clock reading, is
    the last call, and its error is the result. *)
Theorem failed_removal_is_returned (l : Locker) (path : string)
    (tr pre post : list event) (r : option error) (pe : PathError) :
  (∀ (info : FileInfo) (now : time.Time),
     time.Before (time.Add (ModTime info) (lockDur l)) now = true →
     runs (Lock l path)
       [ev (os_Stat (lockfile l path)) (inl info); ev time_Now now;
        ev (os_Remove (lockfile l path)) (Some pe)]
       (Some (PathErr pe)) ∧
     runs (Refresh l path)
       [ev (os_Stat (lockfile l path)) (inl info); ev time_Now now;
        ev (os_Remove (lockfile l path)) (Some pe)]
       (Some (PathErr pe))) ∧
  (runs (Lock l path) tr r ∨ runs (Refresh l path) tr r →
   tr = pre ++ ev (os_Remove (lockfile l path)) (Some pe) :: post →
   r = Some (PathErr pe) ∧ post = [] ∧
   (∃ (info : FileInfo) (now : time.Time),
      pre = [ev (os_Stat (lockfile l path)) (inl info); ev time_Now now] ∧
      time.Before (time.Add (ModTime info) (lockDur l)) now = true) ∧
   Forall (λ c, is_create c = false ∧ is_touch c = false) (calls tr)).
Proof.
  split.
  - intros info now He. split.
    + unfold Lock, removeIfExpired. cbn.
      eexists _, _. split; [reflexivity|]. cbn.
      eexists _, _. split; [reflexivity|]. cbn. rewrite He. cbn.
      eexists _, _. split; [reflexivity|]. cbn. split; reflexivity.
    + unfold Refresh, removeIfExpired. cbn.
      eexists _, _. split; [reflexivity|]. cbn.
      eexists _, _. split; [reflexivity|]. cbn. rewrite He. cbn.
      eexists _, _. split; [reflexivity|]. cbn. split; reflexivity.
  - intros [H|H] Htr.
    + unfold Lock, removeIfExpired in H. unroll H; locate.
      repeat split; eauto; repeat constructor.
    + unfold Refresh, removeIfExpired in H. unroll H; locate.
      repeat split; eauto; repeat constructor.
Qed.

Lemma failed_removal_is_returned_witness :
  time.Before (time.Add (ModTime {| ModTime := 0 |}) (lockDur zeroLocker)) 120000000000
    = true ∧
  runs (Lock zeroLocker "job") vanishing_trace (Some (PathErr (vanished "job.lock"))) ∧
  runs (Refresh zeroLocker "job") vanishing_trace (Some (PathErr (vanished "job.lock"))) ∧
  vanishing_trace =
    [ev (os_Stat "job.lock") (inl {| ModTime := 0 |}); ev time_Now 120000000000]
    ++ ev (os_Remove (lockfile zeroLocker "job")) (Some (vanished "job.lock")) :: [] ∧
  Some (PathErr (vanished "job.lock")) = Some (PathErr (vanished "job.lock")) ∧
  @nil event = [] ∧
  (∃ (info : FileInfo) (now : time.Time),
     [ev (os_Stat "job.lock") (inl {| ModTime := 0 |}); ev time_Now 120000000000]
       = [ev (os_Stat (lockfile zeroLocker "job")) (inl info); ev time_Now now] ∧
     time.Before (time.Add (ModTime info) (lockDur zeroLocker)) now = true) ∧
  Forall (λ c, is_create c = false ∧ is_touch c = false) (calls vanishing_trace).
Proof.
  pose proof (proj1 (failed_removal_is_returned zeroLocker "job" vanishing_trace
                       [ev (os_Stat "job.lock") (inl {| ModTime := 0 |});
                        ev time_Now 120000000000]
                       [] (Some (PathErr (vanished "job.lock"))) (vanished "job.lock"))
                {| ModTime := 0 |} 120000000000 eq_refl) as [HL HR].
  split; [reflexivity|]. split; [exact HL|]. split; [exact HR|]. split; [reflexivity|].
  exact (proj2 (failed_removal_is_returned zeroLocker "job" vanishing_trace
                  [ev (os_Stat "job.lock") (inl {| ModTime := 0 |});
                   ev time_Now 120000000000]
                  [] (Some (PathErr (vanished "job.lock"))) (vanished "job.lock"))
           (or_introl HL) eq_refl).
Defined.

(** C4. In [Lock], whatever the environment answers: a create that fails
    because the marker exists (the code's test is [errors.Is(err,
    os.ErrExist)], which [EEXIST] passes) makes [Lock] return [ErrLocked];
    a create that fails otherwise, a time stamp read that fails otherwise
    than by "no such file", and a deletion that fails at all, end the call
    and are returned as they are. *)
Theorem Lock_error_policy (l : Locker) (path : string)
    (tr pre post : list event) (r : option error) (pe : PathError) :
  runs (Lock l path) tr r →
  (tr = pre ++ ev (os_OpenFile (lockfile l path) excl_flags 420) (inr pe) :: post →
     post = [] ∧
     (Err pe = EEXIST → r = Some ErrLocked) ∧
     (errors_Is (Some (PathErr pe)) os_ErrExist = true → r = Some ErrLocked) ∧
     (errors_Is (Some (PathErr pe)) os_ErrExist = false → r = Some (PathErr pe))) ∧
  (tr = pre ++ ev (os_Stat (lockfile l path)) (inr pe) :: post →
     errors_Is (Some (PathErr pe)) os_ErrNotExist = false →
     post = [] ∧ r = Some (PathErr pe)) ∧
  (tr = pre ++ ev (os_Remove (lockfile l path)) (Some pe) :: post →
     post = [] ∧ r = Some (PathErr pe)).
Proof.
  intros H. unfold Lock, removeIfExpired in H.
  unfold excl_flags.
  repeat split; intros; unroll H; locate; cbn in *; try congruence;
    match goal with
    | Hpe : Err ?p = _, E : match Err ?p with _ => _ end = _ |- _ =>
        rewrite Hpe in E; discriminate E
    end.
Qed.

Lemma Lock_error_policy_witness :
  runs (Lock zeroLocker "job") lost_race_trace (Some ErrLocked) ∧
  runs (Lock zeroLocker "job") [ev (os_Stat "job.lock") (inr (denied "stat" "job.lock"))]
    (Some (PathErr (denied "stat" "job.lock"))) ∧
  (Err (exists_already "job.lock") = EEXIST → Some ErrLocked = Some ErrLocked) ∧
  (@nil event = [] ∧
   Some (PathErr (denied "stat" "job.lock")) = Some (PathErr (denied "stat" "job.lock"))).
Proof.
  assert (H1 : runs (Lock zeroLocker "job") lost_race_trace (Some ErrLocked)).
  { cbn. eexists _, _. split; [reflexivity|]. cbn.
    eexists _, _. split; [reflexivity|]. cbn. split; reflexivity. }
  assert (H2 : runs (Lock zeroLocker "job")
                 [ev (os_Stat "job.lock") (inr (denied "stat" "job.lock"))]
                 (Some (PathErr (denied "stat" "job.lock")))).
  { cbn. eexists _, _. split; [reflexivity|]. cbn. split; reflexivity. }
  split; [exact H1|]. split; [exact H2|]. split.
  - exact (proj1 (proj2 (proj1
      (Lock_error_policy zeroLocker "job" lost_race_trace
         [ev (os_Stat "job.lock") (inr (enoent "stat" "job.lock"))] []
         (Some ErrLocked) (exists_already "job.lock") H1) eq_refl))).
  - exact (proj1 (proj2
      (Lock_error_policy zeroLocker "job"
         [ev (os_Stat "job.lock") (inr (denied "stat" "job.lock"))] [] []
         (Some (PathErr (denied "stat" "job.lock"))) (denied "stat" "job.lock") H2))
      eq_refl eq_refl).
Defined.

(** ** The marker's path *)

(** On the model file system the three operations leave every path other
    than the marker's as it was. *)
Lemma other_paths_untouched (l : Locker) (path other : string) (w : World) :
  other ≠ lockfile l path →
  files (world (run (Lock l path) w)) !! other = files w !! other ∧
  files (world (run (Unlock l path) w)) !! other = files w !! other ∧
  files (world (run (Refresh l path) w)) !! other = files w !! other.
Proof.
  intros Hne. rewrite run_Lock, run_Unlock, run_Refresh.
  destruct (files w !! lockfile l path) as [mt|]; [destruct (expired l mt w)|]; cbn;
    rewrite ?lookup_insert_ne, ?lookup_delete_ne by congruence; auto.
Qed.

(** C8. The marker of [path] is [namer path] when a naming function [namer]
    is configured, and [path] with [".lock"] appended when none is.  [Lock],
    [Unlock] and [Refresh] on [path] do their work at that path and nowhere
    else.  In any environment: [Lock] and [Refresh] begin by reading the
    time stamp of the marker; a [Lock] that returns nil has created the
    marker; a [Refresh] that returns nil has touched it; [Unlock] makes one
    call, the removal of the marker; and no call of any of them names
    another path, so none names the default-derived path when the marker's
    path differs from it.  On the model file system: [Lock] creates the
    marker where there is none, and deletes and re-creates an expired one;
    [Unlock] leaves no marker; [Refresh] stamps a marker in force; and every
    other path is left as it was. *)
Theorem marker_path_respected (l : Locker) (path : string) (w : World) :
  (∀ namer, Lockfile l = Some namer → lockfile l path = namer path) ∧
  (Lockfile l = None → lockfile l path = path +:+ ".lock") ∧
  (∀ tr r, runs (Lock l path) tr r →
     (∃ x tr', tr = ev (os_Stat (lockfile l path)) x :: tr') ∧
     (r = None →
        ∃ pre f, tr = pre ++ [ev (os_OpenFile (lockfile l path) excl_flags 420) (inl f);
                              ev (File_Close f) None])) ∧
  (∀ tr r, runs (Unlock l path) tr r → ∃ e, tr = [ev (os_Remove (lockfile l path)) e]) ∧
  (∀ tr r, runs (Refresh l path) tr r →
     (∃ x tr', tr = ev (os_Stat (lockfile l path)) x :: tr') ∧
     (r = None →
        ∃ pre now, tr = pre ++ [ev time_Now now;
                                ev (os_Chtimes (lockfile l path) now now) None])) ∧
  (∀ tr r,
     runs (Lock l path) tr r ∨ runs (Unlock l path) tr r ∨ runs (Refresh l path) tr r →
     Forall (λ c, call_path c = None ∨ call_path c = Some (lockfile l path)) (calls tr) ∧
     (lockfile l path ≠ path +:+ ".lock" →
      Forall (λ c, call_path c ≠ Some (path +:+ ".lock")) (calls tr))) ∧
  (files w !! lockfile l path = None →
     result (run (Lock l path) w) = None ∧
     files (world (run (Lock l path) w)) !! lockfile l path = Some (clock w)) ∧
  (∀ mt : time.Time, files w !! lockfile l path = Some mt → expired l mt w = true →
     calls (trace (run (Lock l path) w)) =
       [os_Stat (lockfile l path); time_Now; os_Remove (lockfile l path);
        os_OpenFile (lockfile l path) excl_flags 420;
        File_Close {| Name := lockfile l path |}] ∧
     files (world (run (Lock l path) w)) !! lockfile l path = Some (clock w)) ∧
  (calls (trace (run (Unlock l path) w)) = [os_Remove (lockfile l path)] ∧
   files (world (run (Unlock l path) w)) !! lockfile l path = None) ∧
  (∀ mt : time.Time, files w !! lockfile l path = Some mt → expired l mt w = false →
     result (run (Refresh l path) w) = None ∧
     files (world (run (Refresh l path) w)) !! lockfile l path = Some (clock w)) ∧
  (∀ other, other ≠ lockfile l path →
     files (world (run (Lock l path) w)) !! other = files w !! other ∧
     files (world (run (Unlock l path) w)) !! other = files w !! other ∧
     files (world (run (Refresh l path) w)) !! other = files w !! other).
Proof.
  split; [|split; [|split; [|split; [|split; [|split; [|split; [|split;
    [|split; [|split]]]]]]]]].
  - intros namer Hl. unfold lockfile. by rewrite Hl.
  - intros Hl. unfold lockfile. by rewrite Hl.
  - intros tr r H. unfold Lock, removeIfExpired in H. unfold excl_flags.
    split; [|intros Hr]; unroll H; cbn in *; try discriminate;
      repeat match goal with
        | x : option PathError |- _ => destruct x; cbn in *; try discriminate
        end;
      first [ by eexists _, _ | found ].
  - intros tr r H. unfold Unlock in H. unroll H; by eexists.
  - intros tr r H. unfold Refresh, removeIfExpired in H.
    split; [|intros Hr]; unroll H; cbn in *; try discriminate;
      repeat match goal with
        | x : option PathError |- _ => destruct x; cbn in *; try discriminate
        end;
      first [ by eexists _, _ | found ].
  - intros tr r H.
    assert (Hq : Forall (λ c, call_path c = None ∨ call_path c = Some (lockfile l path))
                   (calls tr)).
    { destruct H as [H|[H|H]].
      - unfold Lock, removeIfExpired in H. unroll H; each_call.
      - unfold Unlock in H. unroll H; each_call.
      - unfold Refresh, removeIfExpired in H. unroll H; each_call. }
    split; [exact Hq|].
    intros Hne. eapply Forall_impl; [exact Hq|].
    intros c [Hc|Hc]; rewrite Hc; congruence.
  - intros Hq. rewrite run_Lock, Hq. cbn. by rewrite lookup_insert_eq.
  - intros mt Hq He. rewrite run_Lock, Hq, He. cbn. by rewrite lookup_insert_eq.
  - rewrite run_Unlock.
    destruct (files w !! lockfile l path) as [mt|] eqn:Hq; cbn;
      [by rewrite lookup_delete_eq | done].
  - intros mt Hq He. rewrite run_Refresh, Hq, He. cbn. by rewrite lookup_insert_eq.
  - intros other Hne. rewrite run_Lock, run_Unlock, run_Refresh.
    destruct (files w !! lockfile l path) as [mt|]; [destruct (expired l mt w)|]; cbn;
      rewrite ?lookup_insert_ne, ?lookup_delete_ne by congruence; auto.
Qed.

Lemma marker_path_respected_witness :
  lockfile dirLocker "job" = "locks/job" ∧
  (calls (trace (run (Lock dirLocker "job") (nothing_at 3))) =
     [os_Stat "locks/job"; os_OpenFile "locks/job" excl_flags 420;
      File_Close {| Name := "locks/job" |}] ∧
   files (world (run (Lock dirLocker "job") (nothing_at 3))) !! "locks/job" = Some 3 ∧
   files (world (run (Lock dirLocker "job") (nothing_at 3))) !! "job.lock" = None) ∧
  (calls (trace (run (Unlock dirLocker "job")
                   (world (run (Lock dirLocker "job") (nothing_at 3)))))
     = [os_Remove "locks/job"] ∧
   files (world (run (Unlock dirLocker "job")
                   (world (run (Lock dirLocker "job") (nothing_at 3))))) !! "locks/job"
     = None) ∧
  (result (run (Refresh dirLocker "job")
             (wait 5 (world (run (Lock dirLocker "job") (nothing_at 3))))) = None ∧
   files (world (run (Refresh dirLocker "job")
             (wait 5 (world (run (Lock dirLocker "job") (nothing_at 3))))))
     !! "locks/job" = Some 8) ∧
  Forall (λ c, call_path c ≠ Some ("job" +:+ ".lock"))
    (calls (trace (run (Refresh dirLocker "job")
                     (wait 5 (world (run (Lock dirLocker "job") (nothing_at 3))))))).
Proof.
  pose proof (marker_path_respected dirLocker "job" (nothing_at 3))
    as (Hn & _ & _ & _ & _ & _ & HL & _ & _ & _ & HO).
  pose proof (marker_path_respected dirLocker "job"
                (world (run (Lock dirLocker "job") (nothing_at 3))))
    as (_ & _ & _ & _ & _ & _ & _ & _ & HU & _ & _).
  pose proof (marker_path_respected dirLocker "job"
                (wait 5 (world (run (Lock dirLocker "job") (nothing_at 3)))))
    as (_ & _ & _ & _ & _ & HC & _ & _ & _ & HR & _).
  split; [exact (Hn _ eq_refl)|]. split; [|split; [|split]].
  - split; [reflexivity|]. split; [exact (proj2 (HL eq_refl))|].
    destruct (HO "job.lock") as (H & _ & _); [discriminate | exact H].
  - exact HU.
  - exact (HR 3 eq_refl eq_refl).
  - refine (proj2 (HC _ _ (or_intror (or_intror (run_runs _ _)))) _). discriminate.
Defined.

(** ** Several callers *)

(** C5 fails on the code when a stale marker is present: on the schedule
    [both_see_stale] the two concurrent calls of [Lock] on one path both
    return nil, the second having deleted the live marker of the first. *)
Theorem two_callers_both_acquire :
  stale.(files) !! lockfile zeroLocker "job" = Some 0 ∧
  expired zeroLocker 0 stale = true ∧
  returned <$> (sched both_see_stale
                  (stale, [Lock zeroLocker "job"; Lock zeroLocker "job"])).2
    = [Some None; Some None] ∧
  returned <$> (sched late_delete
                  (stale, [Lock zeroLocker "job"; Lock zeroLocker "job"])).2
    = [Some None; Some None].
Proof. vm_compute. repeat split; reflexivity. Qed.

(** On the schedule [marker_vanishes] the caller that loses does not get
    [ErrLocked] either, but the "no such file" error of its deletion. *)
Example loser_gets_path_error :
  returned <$> (sched marker_vanishes
                  (stale, [Lock zeroLocker "job"; Lock zeroLocker "job"])).2
    = [Some (Some (PathErr (vanished "job.lock"))); Some None].
Proof. vm_compute. reflexivity. Qed.

(** *** Callers that find no marker at all

    Where the property of C5 does hold: no marker at the start, a positive
    lease, and a clock that stands still while the callers race.  The
    states a caller of [Lock] goes through are described by what the caller
    does next. *)

Section callers_without_a_marker.
Context (l : Locker) (path : string) (t : time.Time).
Hypothesis lease_positive : 0 < lockDur l.

Lemma Lock_starting : starting l path t (Lock l path).
Proof.
  eexists. split; [reflexivity|]. split.
  - eexists. split; [reflexivity|]. split; [reflexivity|].
    eexists _, _. split; reflexivity.
  - eexists. split; [reflexivity|]. cbn.
    unfold time.Before, time.Add.
    destruct (Z.ltb_spec (t + lockDur l) t); [lia | reflexivity].
Qed.

Lemma step_safe (cfg : config (option error)) (i : nat) :
  safe l path t cfg → safe l path t (step cfg i).
Proof.
  destruct cfg as [w ts]. unfold safe, step. cbn [fst snd].
  intros [Hc H]. destruct (ts !! i) as [p|] eqn:Hi; [|auto].
  destruct H as [[Hq Hts]|[Hq (i0 & p0 & Hi0 & Hp0 & Hrest)]].
  - destruct (Forall_lookup_1 _ _ _ _ Hts Hi) as [(k & -> & Hk & _)|(k & -> & _ & Hk)];
      cbn; rewrite Hq, ?(proj1 excl_flags_create_excl); cbn.
    + split; [done|]. left. split; [done|].
      apply Forall_insert; [done | by right].
    + split; [done|]. right. split; [by rewrite lookup_insert_eq, Hc|].
      exists i, (k (inl {| Name := lockfile l path |})). split.
      { apply list_lookup_insert_eq. by eapply lookup_lt_Some. }
      split; [by left|]. intros j p' Hj. rewrite list_lookup_insert_ne by done.
      intros Hp'. destruct (Forall_lookup_1 _ _ _ _ Hts Hp'); auto.
  - destruct (decide (i = i0)) as [->|Hne].
    + assert (p0 = p) as -> by congruence.
      destruct Hp0 as [(f & k & -> & Hk) | ->]; cbn.
      * split; [done|]. right. split; [done|].
        exists i0, (k None). split.
        { apply list_lookup_insert_eq. by eapply lookup_lt_Some. }
        split; [right; exact Hk|]. intros j p' Hj.
        rewrite list_lookup_insert_ne by done. by apply Hrest.
      * split; [done|]. right. split; [done|].
        exists i0, (Ret None). split; [done|]. split; [by right | exact Hrest].
    + assert (Hnew : ∀ p1,
                starting l path t p1 ∨ creating l path p1 ∨ judging t p1 ∨ refused p1 →
                won l path t (<[i := p1]> ts)).
      { intros p1 Hp1. exists i0, p0. split; [by rewrite list_lookup_insert_ne|].
        split; [done|]. intros j p' Hj. destruct (decide (j = i)) as [->|Hji].
        - rewrite list_lookup_insert_eq by (by eapply lookup_lt_Some). congruence.
        - rewrite list_lookup_insert_ne by done. by apply Hrest. }
      assert (Hold : won l path t ts) by (by exists i0, p0).
      destruct (Hrest i p Hne Hi)
        as [(k & -> & _ & Hk)|[(k & -> & Hk & _)|[(k & -> & Hk) | ->]]];
        cbn; rewrite ?Hq, ?(proj1 excl_flags_create_excl), ?(proj2 excl_flags_create_excl);
        cbn; (split; [done|]); right; (split; [done|]);
        [apply Hnew; right; right; left; exact Hk
        |apply Hnew; right; right; right; exact Hk
        |apply Hnew; right; right; right; rewrite Hc; exact Hk
        |exact Hold].
Qed.

Lemma sched_safe (s : list nat) (cfg : config (option error)) :
  safe l path t cfg → safe l path t (sched s cfg).
Proof.
  revert cfg. induction s as [|i s IH]; intros cfg H; [done|].
  apply IH, step_safe, H.
Qed.
End callers_without_a_marker.

(** [Lock] makes at most five calls: stat, clock, remove, open, close. *)
Lemma Lock_within (l : Locker) (path : string) : within 5 (Lock l path).
Proof. unfold Lock, removeIfExpired. bound. Qed.

Lemma Unlock_within (l : Locker) (path : string) : within 1 (Unlock l path).
Proof. unfold Unlock. bound. Qed.

Lemma Refresh_within (l : Locker) (path : string) : within 5 (Refresh l path).
Proof. unfold Refresh, removeIfExpired. bound. Qed.

Lemma step_length {A : Type} (cfg : config A) (i : nat) :
  length (step cfg i).2 = length cfg.2.
Proof.
  unfold step. destruct (cfg.2 !! i) as [[a|c k]|]; cbn; [done| |done].
  apply length_insert.
Qed.

Lemma sched_length {A : Type} (s : list nat) (cfg : config A) :
  length (sched s cfg).2 = length cfg.2.
Proof.
  revert cfg. induction s as [|i s IH]; intros cfg; [done|].
  cbn. fold (sched s (step cfg i)). by rewrite IH, step_length.
Qed.

(** Every turn brings a caller one call closer to its return. *)
Lemma sched_within {A : Type} (i : nat) (s : list nat) :
  ∀ (cfg : config A) (n : nat) (p : prog A),
    cfg.2 !! i = Some p → within n p →
    ∃ p', (sched s cfg).2 !! i = Some p' ∧ within (n - turns i s) p'.
Proof.
  induction s as [|j s IH]; intros cfg n p Hi Hn.
  - exists p. by rewrite Nat.sub_0_r.
  - cbn. fold (sched s (step cfg j)). unfold turns. cbn.
    destruct (Nat.eq_dec j i) as [->|Hne].
    + destruct p as [a|c k].
      * destruct (IH (step cfg i) (n - 1)%nat (Ret a)) as (p' & Hp' & Hw).
        { unfold step. by rewrite Hi. }
        { exact I. }
        exists p'. split; [done|].
        by replace (n - S (count_occ Nat.eq_dec s i))%nat
           with (n - 1 - turns i s)%nat by (unfold turns; lia).
      * destruct n as [|m]; [done|]. cbn in Hn.
        apply (IH (step cfg i) m (k (exec c cfg.1).1)); [|apply Hn].
        unfold step. rewrite Hi. cbn.
        apply list_lookup_insert_eq. by eapply lookup_lt_Some.
    + apply (IH (step cfg j) n p); [|done].
      unfold step. destruct (cfg.2 !! j) as [[a|c k]|]; cbn; try done.
      by rewrite list_lookup_insert_ne.
Qed.

(** X17. With no marker at the start and a positive lease, [n >= 1] concurrent
    callers of [Lock] on one path, scheduled call by call in any order that
    gives each of them its five turns: all return, exactly one returns nil
    and every other one returns [ErrLocked]. *)
Lemma one_winner_without_marker (l : Locker) (path : string) (w : World)
    (n : nat) (s : list nat) :
  0 < lockDur l →
  files w !! lockfile l path = None →
  (0 < n)%nat →
  (∀ i, (i < n)%nat → (5 ≤ turns i s)%nat) →
  ∃ i, (i < n)%nat ∧
    ∀ j, (j < n)%nat →
      (sched s (w, replicate n (Lock l path))).2 !! j =
        Some (Ret (if decide (j = i) then None else Some ErrLocked)).
Proof.
  intros Hd Hq Hn Hfair.
  set (cfg := sched s (w, replicate n (Lock l path))).
  assert (Hret : ∀ j, (j < n)%nat → ∃ a, cfg.2 !! j = Some (Ret a)).
  { intros j Hj.
    destruct (sched_within j s (w, replicate n (Lock l path)) 5 (Lock l path))
      as (p' & Hp' & Hw).
    - by apply lookup_replicate_2.
    - apply Lock_within.
    - replace (5 - turns j s)%nat with 0%nat in Hw by (specialize (Hfair j Hj); lia).
      destruct p' as [a|c k]; [by exists a | done]. }
  assert (Hlen : length cfg.2 = n).
  { unfold cfg. rewrite sched_length. apply length_replicate. }
  assert (Hsafe : safe l path (clock w) cfg).
  { apply (sched_safe l path (clock w) s). split; [done|]. left. split; [done|].
    apply Forall_replicate. left. by apply Lock_starting. }
  destruct Hsafe as [_ [[_ Hts]|[_ (i & p & Hi & Hp & Hrest)]]].
  - destruct (Hret 0%nat Hn) as [a Ha].
    destruct (Forall_lookup_1 _ _ _ _ Hts Ha) as [(k & Hk & _)|(k & Hk & _)];
      discriminate Hk.
  - assert (Hin : (i < n)%nat) by (rewrite <- Hlen; by eapply lookup_lt_Some).
    exists i. split; [done|]. intros j Hj.
    destruct (Hret j Hj) as [a Ha]. rewrite Ha. do 2 f_equal.
    destruct (decide (j = i)) as [->|Hne].
    + assert (p = Ret a) as -> by congruence.
      destruct Hp as [(f & k & Hk & _)|Hk]; [discriminate Hk|].
      by injection Hk.
    + destruct (Hrest j (Ret a) Hne Ha)
        as [(k & Hk & _)|[(k & Hk & _)|[(k & Hk & _)|Hk]]]; try discriminate Hk.
      by injection Hk.
Qed.

(** Three callers, each given five turns in a row and in turn. *)
Example three_callers_one_winner :
  returned <$> (sched [0; 1; 2; 0; 1; 2; 0; 1; 2; 0; 1; 2; 0; 1; 2]%nat
                  (nothing_at 9, replicate 3 (Lock zeroLocker "job"))).2
    = [Some None; Some (Some ErrLocked); Some (Some ErrLocked)].
Proof. vm_compute. reflexivity. Qed.

(** * Further properties of the package *)

(** ** What a result means, in any environment *)

(** X1. [Unlock] makes exactly one call, the removal of the marker.  It
    returns nil when the removal succeeds or reports that there is no such
    file, and the error of the removal, unchanged, in every other case. *)
Theorem Unlock_error_policy (l : Locker) (path : string)
    (tr : list event) (r : option error) :
  runs (Unlock l path) tr r →
  ∃ e, tr = [ev (os_Remove (lockfile l path)) e] ∧
       r = match e with
           | None => None
           | Some pe =>
               if Errno_Is (Err pe) os_ErrNotExist then None else Some (PathErr pe)
           end.
Proof.
  intros H. unfold Unlock in H. unroll H;
    match goal with x : option PathError |- _ => exists x; destruct x as [pe|] end;
    cbn in *; split; try reflexivity;
    match goal with E : _ = _ |- _ => rewrite E; reflexivity | _ => discriminate end.
Qed.

Lemma Unlock_error_policy_witness :
  runs (Unlock zeroLocker "job")
    [ev (os_Remove "job.lock") (Some (denied "remove" "job.lock"))]
    (Some (PathErr (denied "remove" "job.lock"))) ∧
  ∃ e, [ev (os_Remove "job.lock") (Some (denied "remove" "job.lock"))]
         = [ev (os_Remove (lockfile zeroLocker "job")) e] ∧
       Some (PathErr (denied "remove" "job.lock")) =
         match e with
         | None => None
         | Some pe =>
             if Errno_Is (Err pe) os_ErrNotExist then None else Some (PathErr pe)
         end.
Proof.
  assert (H : runs (Unlock zeroLocker "job")
                [ev (os_Remove "job.lock") (Some (denied "remove" "job.lock"))]
                (Some (PathErr (denied "remove" "job.lock")))).
  { cbn. eexists _, _. split; [reflexivity|]. cbn. split; reflexivity. }
  split; [exact H|].
  exact (Unlock_error_policy zeroLocker "job" _ _ H).
Defined.

(** X2. [Refresh], whatever the environment answers.  A time stamp read
    that fails otherwise than by "no such file" ends the call and is
    returned as it is; one that fails by "no such file" is followed by the
    clock reading and the touch all the same.  A touch that fails by "no
    such file" gives [ErrNotLocked]; one that fails otherwise is returned as
    it is.  The touch is always the last call. *)
Theorem Refresh_error_policy (l : Locker) (path : string)
    (tr pre post : list event) (r : option error) (pe : PathError)
    (atime mtime : time.Time) :
  runs (Refresh l path) tr r →
  (tr = pre ++ ev (os_Stat (lockfile l path)) (inr pe) :: post →
     if Errno_Is (Err pe) os_ErrNotExist
     then ∃ now e, post = [ev time_Now now; ev (os_Chtimes (lockfile l path) now now) e]
     else post = [] ∧ r = Some (PathErr pe)) ∧
  (tr = pre ++ ev (os_Chtimes (lockfile l path) atime mtime) (Some pe) :: post →
     post = [] ∧ atime = mtime ∧
     r = if Errno_Is (Err pe) os_ErrNotExist then Some ErrNotLocked
         else Some (PathErr pe)).
Proof.
  intros H. unfold Refresh, removeIfExpired in H.
  split; intros Htr; unroll H; locate_call; cbn in *;
    repeat match goal with
      | E : Errno_Is _ _ = _ |- _ => rewrite E
      | E : match Err ?p with _ => _ end = _ |- _ => rewrite E
      end;
    try discriminate; eauto.
Qed.

Lemma Refresh_error_policy_witness :
  runs (Refresh zeroLocker "job")
    [ev (os_Stat "job.lock") (inl {| ModTime := 0 |}); ev time_Now 5; ev time_Now 6;
     ev (os_Chtimes "job.lock" 6 6) (Some (denied "chtimes" "job.lock"))]
    (Some (PathErr (denied "chtimes" "job.lock"))) ∧
  @nil event = [] ∧ (6 : time.Time) = 6 ∧
  Some (PathErr (denied "chtimes" "job.lock")) =
    (if Errno_Is (Err (denied "chtimes" "job.lock")) os_ErrNotExist
     then Some ErrNotLocked else Some (PathErr (denied "chtimes" "job.lock"))).
Proof.
  assert (H : runs (Refresh zeroLocker "job")
    [ev (os_Stat "job.lock") (inl {| ModTime := 0 |}); ev time_Now 5; ev time_Now 6;
     ev (os_Chtimes "job.lock" 6 6) (Some (denied "chtimes" "job.lock"))]
    (Some (PathErr (denied "chtimes" "job.lock")))).
  { cbn. eexists _, _. split; [reflexivity|]. cbn.
    eexists _, _. split; [reflexivity|]. cbn.
    eexists _, _. split; [reflexivity|]. cbn.
    eexists _, _. split; [reflexivity|]. cbn. split; reflexivity. }
  split; [exact H|].
  exact (proj2 (Refresh_error_policy zeroLocker "job" _
           [ev (os_Stat "job.lock") (inl {| ModTime := 0 |}); ev time_Now 5; ev time_Now 6]
           [] _ (denied "chtimes" "job.lock") 6 6 H) eq_refl).
Defined.

(** X3. What the result of [Lock] tells its caller, in any environment.
    Nil: the last two calls were the exclusive create of the marker, which
    succeeded, and the close of its handle.  [ErrLocked]: either the marker
    was read and found not yet expired, and nothing was changed, or the
    exclusive create was refused because the marker exists; [ErrLocked]
    never stands for any other failure. *)
Theorem Lock_result_explained (l : Locker) (path : string)
    (tr : list event) (r : option error) :
  runs (Lock l path) tr r →
  (r = None →
     ∃ pre f, tr = pre ++ [ev (os_OpenFile (lockfile l path) excl_flags 420) (inl f);
                           ev (File_Close f) None]) ∧
  (r = Some ErrLocked →
     (∃ info now, tr = [ev (os_Stat (lockfile l path)) (inl info); ev time_Now now] ∧
                  time.Before (time.Add (ModTime info) (lockDur l)) now = false) ∨
     (∃ pre pe, tr = pre ++ [ev (os_OpenFile (lockfile l path) excl_flags 420) (inr pe)] ∧
                errors_Is (Some (PathErr pe)) os_ErrExist = true)).
Proof.
  intros H. unfold Lock, removeIfExpired in H. unfold excl_flags.
  split; intros Hr; unroll H; cbn in *; try discriminate;
    repeat match goal with
      | x : option PathError |- _ => destruct x; cbn in *; try discriminate
      | x : (_ + PathError)%type |- _ => destruct x; cbn in *; try discriminate
      end.
  all: try found.
  all: first [ left; solve [repeat esplit; eauto] | right; found ].
Qed.

Lemma Lock_result_explained_witness :
  runs (Lock zeroLocker "job") (trace (run (Lock zeroLocker "job") stale)) None ∧
  ∃ pre f, trace (run (Lock zeroLocker "job") stale) =
             pre ++ [ev (os_OpenFile (lockfile zeroLocker "job") excl_flags 420) (inl f);
                     ev (File_Close f) None].
Proof.
  split; [exact (run_runs (Lock zeroLocker "job") stale)|].
  exact (proj1 (Lock_result_explained zeroLocker "job" _ None
                  (run_runs (Lock zeroLocker "job") stale)) eq_refl).
Defined.

(** X4. What the result of [Refresh] tells its caller, in any environment.
    Nil: the last two calls were a clock reading and the touch that stamped
    the marker with that reading, and the touch succeeded.  [ErrNotLocked]:
    the touch reported that there is no such file.  [Refresh] never returns
    [ErrLocked], and it never makes a call that could create the marker. *)
Theorem Refresh_result_explained (l : Locker) (path : string)
    (tr : list event) (r : option error) :
  runs (Refresh l path) tr r →
  (r = None →
     ∃ pre now, tr = pre ++ [ev time_Now now;
                             ev (os_Chtimes (lockfile l path) now now) None]) ∧
  (r = Some ErrNotLocked →
     ∃ pre now pe, tr = pre ++ [ev time_Now now;
                                ev (os_Chtimes (lockfile l path) now now) (Some pe)] ∧
                   Errno_Is (Err pe) os_ErrNotExist = true) ∧
  r ≠ Some ErrLocked ∧
  Forall (λ c, is_create c = false) (calls tr).
Proof.
  intros H. unfold Refresh, removeIfExpired in H.
  repeat split; try intros Hr; unroll H; cbn in *; try discriminate;
    repeat match goal with
      | x : option PathError |- _ => destruct x; cbn in *; try discriminate
      | x : (_ + PathError)%type |- _ => destruct x; cbn in *; try discriminate
      end;
    try found; try (repeat constructor).
Qed.

Lemma Refresh_result_explained_witness :
  runs (Refresh zeroLocker "job") (trace (run (Refresh zeroLocker "job") stale))
    (Some ErrNotLocked) ∧
  ∃ pre now pe,
    trace (run (Refresh zeroLocker "job") stale) =
      pre ++ [ev time_Now now;
              ev (os_Chtimes (lockfile zeroLocker "job") now now) (Some pe)] ∧
    Errno_Is (Err pe) os_ErrNotExist = true.
Proof.
  split; [exact (run_runs (Refresh zeroLocker "job") stale)|].
  exact (proj1 (proj2 (Refresh_result_explained zeroLocker "job" _ (Some ErrNotLocked)
                  (run_runs (Refresh zeroLocker "job") stale))) eq_refl).
Defined.

(** X5. When the close of the freshly created marker fails, [Lock] returns
    the error of the close, in any environment.  The close comes right after
    the successful create and is the last call: the marker that was created
    is not removed, although the caller is told that [Lock] failed. *)
Theorem Lock_close_failure (l : Locker) (path : string)
    (tr pre post : list event) (r : option error) (f : File) (pe : PathError) :
  runs (Lock l path) tr r →
  tr = pre ++ ev (File_Close f) (Some pe) :: post →
  post = [] ∧ r = Some (PathErr pe) ∧
  ∃ pre', pre = pre' ++ [ev (os_OpenFile (lockfile l path) excl_flags 420) (inl f)].
Proof.
  intros H Htr. unfold Lock, removeIfExpired in H. unfold excl_flags.
  unroll H; locate_call; cbn in *; try discriminate.
  all: split; [reflexivity|]; split; [reflexivity|]; found.
Qed.

Lemma Lock_close_failure_witness :
  runs (Lock zeroLocker "job")
    [ev (os_Stat "job.lock") (inr (enoent "stat" "job.lock"));
     ev (os_OpenFile "job.lock" excl_flags 420) (inl {| Name := "job.lock" |});
     ev (File_Close {| Name := "job.lock" |})
        (Some {| Op := "close"; Path := "job.lock"; Err := EIO |})]
    (Some (PathErr {| Op := "close"; Path := "job.lock"; Err := EIO |})) ∧
  @nil event = [] ∧
  Some (PathErr {| Op := "close"; Path := "job.lock"; Err := EIO |})
    = Some (PathErr {| Op := "close"; Path := "job.lock"; Err := EIO |}) ∧
  ∃ pre', [ev (os_Stat "job.lock") (inr (enoent "stat" "job.lock"));
           ev (os_OpenFile "job.lock" excl_flags 420) (inl {| Name := "job.lock" |})]
          = pre' ++ [ev (os_OpenFile (lockfile zeroLocker "job") excl_flags 420)
                        (inl {| Name := "job.lock" |})].
Proof.
  assert (H : runs (Lock zeroLocker "job")
    [ev (os_Stat "job.lock") (inr (enoent "stat" "job.lock"));
     ev (os_OpenFile "job.lock" excl_flags 420) (inl {| Name := "job.lock" |});
     ev (File_Close {| Name := "job.lock" |})
        (Some {| Op := "close"; Path := "job.lock"; Err := EIO |})]
    (Some (PathErr {| Op := "close"; Path := "job.lock"; Err := EIO |}))).
  { cbn. eexists _, _. split; [reflexivity|]. cbn.
    eexists _, _. split; [reflexivity|]. cbn.
    eexists _, _. split; [reflexivity|]. cbn. split; reflexivity. }
  split; [exact H|].
  exact (Lock_close_failure zeroLocker "job" _
           [ev (os_Stat "job.lock") (inr (enoent "stat" "job.lock"));
            ev (os_OpenFile "job.lock" excl_flags 420) (inl {| Name := "job.lock" |})]
           [] _ {| Name := "job.lock" |}
           {| Op := "close"; Path := "job.lock"; Err := EIO |} H eq_refl).
Defined.

(** X6. No operation waits or tries again: whatever the environment
    answers, [Lock] and [Refresh] return after at least one and at most
    five calls, and [Unlock] after exactly one. *)
Theorem operations_never_retry (l : Locker) (path : string)
    (tr : list event) (r : option error) :
  (runs (Lock l path) tr r → (1 ≤ length tr ≤ 5)%nat) ∧
  (runs (Refresh l path) tr r → (1 ≤ length tr ≤ 5)%nat) ∧
  (runs (Unlock l path) tr r → length tr = 1%nat).
Proof.
  split; [|split]; intros H.
  all: first [ unfold Lock, removeIfExpired in H
             | unfold Refresh, removeIfExpired in H
             | unfold Unlock in H ].
  all: unroll H; cbn; try lia.
Qed.

Lemma operations_never_retry_witness :
  runs (Lock zeroLocker "job") (trace (run (Lock zeroLocker "job") stale)) None ∧
  length (trace (run (Lock zeroLocker "job") stale)) = 5%nat ∧
  (1 ≤ length (trace (run (Lock zeroLocker "job") stale)) ≤ 5)%nat.
Proof.
  split; [exact (run_runs (Lock zeroLocker "job") stale)|]. split; [reflexivity|].
  exact (proj1 (operations_never_retry zeroLocker "job" _ None)
           (run_runs (Lock zeroLocker "job") stale)).
Defined.

(** ** The life cycle on the model file system *)

Lemma World_eta (w : World) : {| files := files w; clock := clock w |} = w.
Proof. by destruct w. Qed.

Lemma expired_fresh (l : Locker) (w : World) :
  0 ≤ lockDur l → expired l (clock w) w = false.
Proof.
  intros Hd. unfold expired, time.Before, time.Add.
  destruct (Z.ltb_spec (clock w + lockDur l) (clock w)); [lia | reflexivity].
Qed.

(** X7. With a lease that is not negative, [Lock] always leaves the path
    locked: whatever it returns, afterwards the marker exists and is not
    expired.  It returns either nil, and the marker is stamped with the
    current time, or [ErrLocked], and nothing has changed. *)
Theorem Lock_leaves_marker_in_force (l : Locker) (path : string) (w : World) :
  0 ≤ lockDur l →
  ∃ mt : time.Time,
    files (world (run (Lock l path) w)) !! lockfile l path = Some mt ∧
    expired l mt (world (run (Lock l path) w)) = false ∧
    ((result (run (Lock l path) w) = None ∧ mt = clock w) ∨
     (result (run (Lock l path) w) = Some ErrLocked ∧ world (run (Lock l path) w) = w)).
Proof.
  intros Hd. rewrite run_Lock.
  destruct (files w !! lockfile l path) as [mt|] eqn:Hq;
    [destruct (expired l mt w) eqn:He|]; cbn.
  - exists (clock w). rewrite lookup_insert_eq.
    split; [done|]. split; [by apply (expired_fresh l w)|]. by left.
  - exists mt. split; [done|]. split; [done|]. by right.
  - exists (clock w). rewrite lookup_insert_eq.
    split; [done|]. split; [by apply (expired_fresh l w)|]. by left.
Qed.

Lemma Lock_leaves_marker_in_force_witness :
  0 ≤ lockDur zeroLocker ∧
  ∃ mt : time.Time,
    files (world (run (Lock zeroLocker "job") stale)) !! lockfile zeroLocker "job" = Some mt ∧
    expired zeroLocker mt (world (run (Lock zeroLocker "job") stale)) = false ∧
    ((result (run (Lock zeroLocker "job") stale) = None ∧ mt = clock stale) ∨
     (result (run (Lock zeroLocker "job") stale) = Some ErrLocked ∧
      world (run (Lock zeroLocker "job") stale) = stale)).
Proof.
  split; [discriminate|].
  apply (Lock_leaves_marker_in_force zeroLocker "job" stale). discriminate.
Defined.

(** X8. Round trip: where there is no marker, [Lock] followed by [Unlock]
    succeeds twice and gives back the very file system it started from. *)
Theorem Lock_Unlock_round_trip (l : Locker) (path : string) (w : World) :
  files w !! lockfile l path = None →
  result (run (Lock l path) w) = None ∧
  result (run (Unlock l path) (world (run (Lock l path) w))) = None ∧
  world (run (Unlock l path) (world (run (Lock l path) w))) = w.
Proof.
  intros Hq. rewrite run_Unlock, run_Lock, Hq. cbn.
  rewrite lookup_insert_eq. cbn. repeat split.
  unfold without. cbn. rewrite delete_insert_id by done. apply World_eta.
Qed.

Lemma Lock_Unlock_round_trip_witness :
  files (nothing_at 4) !! lockfile dirLocker "job" = None ∧
  result (run (Lock dirLocker "job") (nothing_at 4)) = None ∧
  result (run (Unlock dirLocker "job")
            (world (run (Lock dirLocker "job") (nothing_at 4)))) = None ∧
  world (run (Unlock dirLocker "job")
           (world (run (Lock dirLocker "job") (nothing_at 4)))) = nothing_at 4.
Proof.
  split; [reflexivity|].
  apply (Lock_Unlock_round_trip dirLocker "job" (nothing_at 4)). reflexivity.
Defined.

(** X9. [Unlock] frees the path for everybody, whoever holds the lock and
    however fresh the marker is: after an [Unlock], a [Lock] by any
    [Locker] that uses the same marker succeeds, and stamps the new marker
    with the current time. *)
Theorem Unlock_then_Lock_acquires (l l' : Locker) (path : string) (w : World) :
  lockfile l' path = lockfile l path →
  result (run (Lock l' path) (world (run (Unlock l path) w))) = None ∧
  files (world (run (Lock l' path) (world (run (Unlock l path) w))))
    !! lockfile l path = Some (clock w).
Proof.
  intros Hq. rewrite run_Lock, Hq, run_Unlock.
  destruct (files w !! lockfile l path) as [mt|] eqn:Hw; cbn.
  - rewrite lookup_delete_eq. cbn. by rewrite lookup_insert_eq.
  - rewrite Hw. cbn. by rewrite lookup_insert_eq.
Qed.

Lemma Unlock_then_Lock_acquires_witness :
  lockfile zeroLocker "job" = lockfile {| Lockfile := None; LockDur := 5 |} "job" ∧
  result (run (Lock zeroLocker "job")
            (world (run (Unlock {| Lockfile := None; LockDur := 5 |} "job")
                      (marked_at_age 1)))) = None ∧
  files (world (run (Lock zeroLocker "job")
            (world (run (Unlock {| Lockfile := None; LockDur := 5 |} "job")
                      (marked_at_age 1)))))
    !! lockfile {| Lockfile := None; LockDur := 5 |} "job" = Some (clock (marked_at_age 1)).
Proof.
  split; [reflexivity|].
  apply (Unlock_then_Lock_acquires {| Lockfile := None; LockDur := 5 |} zeroLocker
           "job" (marked_at_age 1)). reflexivity.
Defined.

(** A successful [Lock] leaves the marker stamped with the current time. *)
Lemma Lock_success_stamp (l : Locker) (path : string) (w : World) :
  result (run (Lock l path) w) = None →
  files (world (run (Lock l path) w)) !! lockfile l path = Some (clock w) ∧
  clock (world (run (Lock l path) w)) = clock w.
Proof.
  rewrite run_Lock.
  destruct (files w !! lockfile l path) as [mt|]; [destruct (expired l mt w)|];
    cbn; try discriminate; intros _; rewrite lookup_insert_eq; auto.
Qed.

(** X10. Exclusion until expiry.  After a successful [Lock] and a wait of
    [d], a [Lock] by any [Locker] that uses the same marker is decided by
    the lease of that second [Locker]: it returns [ErrLocked] and changes
    nothing when [d] is at most its lease, and it succeeds, taking the lock
    over, when [d] is greater. *)
Theorem Lock_excludes_until_expiry (l l' : Locker) (path : string) (w : World)
    (d : time.Duration) :
  lockfile l' path = lockfile l path →
  result (run (Lock l path) w) = None →
  (d ≤ lockDur l' →
     result (run (Lock l' path) (wait d (world (run (Lock l path) w)))) = Some ErrLocked ∧
     world (run (Lock l' path) (wait d (world (run (Lock l path) w))))
       = wait d (world (run (Lock l path) w))) ∧
  (lockDur l' < d →
     result (run (Lock l' path) (wait d (world (run (Lock l path) w)))) = None ∧
     files (world (run (Lock l' path) (wait d (world (run (Lock l path) w)))))
       !! lockfile l path = Some (clock w + d)).
Proof.
  intros Hq Hlock. destruct (Lock_success_stamp l path w Hlock) as [Hf Hc].
  generalize dependent (world (run (Lock l path) w)). intros v Hf Hc.
  rewrite run_Lock, Hq. cbn. rewrite Hf.
  unfold expired, time.Before, time.Add. cbn. rewrite Hc.
  destruct (Z.ltb_spec (clock w + lockDur l') (clock w + d)); split; intros; try lia.
  - cbn. by rewrite lookup_insert_eq.
  - done.
Qed.

Lemma Lock_excludes_until_expiry_witness :
  lockfile zeroLocker "job" = lockfile zeroLocker "job" ∧
  result (run (Lock zeroLocker "job") (nothing_at 7)) = None ∧
  result (run (Lock zeroLocker "job")
            (wait 60000000000 (world (run (Lock zeroLocker "job") (nothing_at 7)))))
    = Some ErrLocked ∧
  result (run (Lock zeroLocker "job")
            (wait 60000000001 (world (run (Lock zeroLocker "job") (nothing_at 7)))))
    = None.
Proof.
  split; [reflexivity|]. split; [reflexivity|]. split.
  - apply (proj1 (Lock_excludes_until_expiry zeroLocker zeroLocker "job" (nothing_at 7)
                    60000000000 eq_refl eq_refl)). discriminate.
  - apply (proj2 (Lock_excludes_until_expiry zeroLocker zeroLocker "job" (nothing_at 7)
                    60000000001 eq_refl eq_refl)). reflexivity.
Defined.

(** X11. Keeping a lock.  A holder whose marker has just been stamped, and
    who calls [Refresh] again and again, never waiting longer than the lease
    between two calls, succeeds every time; the marker stays stamped with
    the time of the last call, which is the starting time plus all the
    waits. *)
Theorem refreshing_keeps_the_lock (l : Locker) (path : string)
    (ds : list time.Duration) (w : World) :
  files w !! lockfile l path = Some (clock w) →
  Forall (λ d, d ≤ lockDur l) ds →
  Forall (λ r, r = None) (refresh_after l path ds w).1 ∧
  length (refresh_after l path ds w).1 = length ds ∧
  files (refresh_after l path ds w).2 !! lockfile l path
    = Some (clock (refresh_after l path ds w).2) ∧
  clock (refresh_after l path ds w).2 = clock w + foldr Z.add 0 ds.
Proof.
  revert w. induction ds as [|d ds IH]; intros w Hq Hds.
  - cbn. repeat split; [constructor | done | lia].
  - apply Forall_cons in Hds as [Hd Hds]. cbn [refresh_after fst snd].
    assert (Hr : run (Refresh l path) (wait d w) =
              Outcome None (stamped (lockfile l path) (clock w + d) (wait d w))
                [ev (os_Stat (lockfile l path)) (inl {| ModTime := clock w |});
                 ev time_Now (clock w + d); ev time_Now (clock w + d);
                 ev (os_Chtimes (lockfile l path) (clock w + d) (clock w + d)) None]).
    { rewrite run_Refresh. cbn. rewrite Hq.
      unfold expired, time.Before, time.Add. cbn.
      destruct (Z.ltb_spec (clock w + lockDur l) (clock w + d)); [lia | reflexivity]. }
    rewrite Hr. cbn [result world].
    destruct (IH (stamped (lockfile l path) (clock w + d) (wait d w))) as (H1 & H2 & H3 & H4).
    { cbn. apply lookup_insert_eq. }
    { exact Hds. }
    repeat split.
    + by constructor.
    + cbn. by rewrite H2.
    + exact H3.
    + rewrite H4. cbn. lia.
Qed.

Lemma refreshing_keeps_the_lock_witness :
  files (marked_at_age 0) !! lockfile zeroLocker "job" = Some (clock (marked_at_age 0)) ∧
  Forall (λ d, d ≤ lockDur zeroLocker) [60000000000; 1; 59000000000] ∧
  (refresh_after zeroLocker "job" [60000000000; 1; 59000000000] (marked_at_age 0)).1
    = [None; None; None] ∧
  clock (refresh_after zeroLocker "job" [60000000000; 1; 59000000000] (marked_at_age 0)).2
    = clock (marked_at_age 0) + foldr Z.add 0 [60000000000; 1; 59000000000].
Proof.
  assert (Hds : Forall (λ d, d ≤ lockDur zeroLocker) [60000000000; 1; 59000000000]).
  { repeat constructor; discriminate. }
  split; [reflexivity|]. split; [exact Hds|]. split; [reflexivity|].
  exact (proj2 (proj2 (proj2
    (refreshing_keeps_the_lock zeroLocker "job" [60000000000; 1; 59000000000]
       (marked_at_age 0) eq_refl Hds)))).
Defined.

(** X12. [LockDur] is not validated.  With a negative [LockDur] every
    marker that is not stamped in the future counts as expired: [Lock]
    always succeeds, even right after another [Lock], and [Refresh] always
    deletes the marker and returns [ErrNotLocked]. *)
Theorem negative_lease_never_excludes (l : Locker) (path : string) (w : World)
    (mt : time.Time) :
  LockDur l < 0 →
  files w !! lockfile l path = Some mt →
  mt ≤ clock w →
  lockDur l = LockDur l ∧
  result (run (Lock l path) w) = None ∧
  result (run (Lock l path) (world (run (Lock l path) w))) = None ∧
  result (run (Refresh l path) w) = Some ErrNotLocked ∧
  files (world (run (Refresh l path) w)) !! lockfile l path = None.
Proof.
  intros Hd Hq Hmt.
  assert (Hdur : lockDur l = LockDur l).
  { unfold lockDur. destruct (Z.eqb_spec (LockDur l) 0); [lia | reflexivity]. }
  assert (Hexp : ∀ (v : World) (t : time.Time), t ≤ clock v → expired l t v = true).
  { intros v t Ht. unfold expired, time.Before, time.Add. rewrite Hdur.
    destruct (Z.ltb_spec (t + LockDur l) (clock v)); [reflexivity | lia]. }
  split; [exact Hdur|].
  rewrite run_Refresh, !run_Lock, Hq, (Hexp w mt Hmt). cbn.
  rewrite lookup_insert_eq, lookup_delete_eq.
  rewrite (Hexp _ (clock w)) by (cbn; lia). done.
Qed.

Lemma negative_lease_never_excludes_witness :
  LockDur {| Lockfile := None; LockDur := -1 |} < 0 ∧
  files (marked_at_age 0) !! lockfile {| Lockfile := None; LockDur := -1 |} "job" = Some 0 ∧
  0 ≤ clock (marked_at_age 0) ∧
  result (run (Lock {| Lockfile := None; LockDur := -1 |} "job") (marked_at_age 0)) = None ∧
  result (run (Refresh {| Lockfile := None; LockDur := -1 |} "job") (marked_at_age 0))
    = Some ErrNotLocked.
Proof.
  split; [reflexivity|]. split; [reflexivity|]. split; [discriminate|].
  pose proof (negative_lease_never_excludes {| Lockfile := None; LockDur := -1 |} "job"
                (marked_at_age 0) 0 eq_refl eq_refl) as H.
  destruct H as (_ & H1 & _ & H2 & _); [discriminate|].
  split; [exact H1 | exact H2].
Defined.

(** ** Several callers, again *)

Lemma one_winner_without_marker_witness :
  0 < lockDur zeroLocker ∧
  files (nothing_at 9) !! lockfile zeroLocker "job" = None ∧
  (0 < 2)%nat ∧
  ∃ i, (i < 2)%nat ∧
    ∀ j, (j < 2)%nat →
      (sched [0; 1; 1; 0; 1; 0; 0; 1; 1; 0]%nat
         (nothing_at 9, replicate 2 (Lock zeroLocker "job"))).2 !! j =
        Some (Ret (if decide (j = i) then None else Some ErrLocked)).
Proof.
  split; [reflexivity|]. split; [reflexivity|]. split; [lia|].
  apply (one_winner_without_marker zeroLocker "job" (nothing_at 9) 2
           [0; 1; 1; 0; 1; 0; 0; 1; 1; 0]%nat); [reflexivity | reflexivity | lia |].
  intros [|[|i]] Hi; [vm_compute; lia | vm_compute; lia | lia].
Defined.

Lemma sched_cons {A : Type} (i : nat) (s : list nat) (cfg : config A) :
  sched (i :: s) cfg = sched s (step cfg i).
Proof. reflexivity. Qed.

(** Let the caller whose turn it is make its call, and simplify the
    configuration, leaving the rest of the schedule alone. *)
Ltac turn :=
  rewrite sched_cons;
  with_strategy opaque [sched] (unfold step; cbn);
  try change (Z.lor (Z.lor O_CREATE O_EXCL) O_WRONLY) with excl_flags;
  rewrite ?lookup_delete_eq, ?lookup_insert_eq,
    ?(proj1 excl_flags_create_excl), ?(proj2 excl_flags_create_excl);
  with_strategy opaque [sched] cbn.

(** The marker vanishing between the time stamp read and the delete: with
    an expired marker, on the schedule [marker_vanishes] the caller whose
    deletion comes second, be it in [Lock] or in [Refresh], gets the "no
    such file" error of that deletion, and the other caller acquires. *)
Lemma vanished_marker_reaches_caller (l : Locker) (path : string) (w : World)
    (mt : time.Time) :
  files w !! lockfile l path = Some mt →
  expired l mt w = true →
  returned <$> (sched marker_vanishes (w, [Lock l path; Lock l path])).2
    = [Some (Some (PathErr (vanished (lockfile l path)))); Some None] ∧
  returned <$> (sched marker_vanishes (w, [Refresh l path; Lock l path])).2
    = [Some (Some (PathErr (vanished (lockfile l path)))); Some None].
Proof.
  intros Hq He. unfold expired in He. unfold marker_vanishes. split.
  - repeat (turn; rewrite ?Hq, ?He; with_strategy opaque [sched] cbn). reflexivity.
  - repeat (turn; rewrite ?Hq, ?He; with_strategy opaque [sched] cbn). reflexivity.
Qed.

(** X14. Whenever the marker is expired, for every [Locker], path and file
    system, two concurrent calls of [Lock] can both return nil: on the
    schedule [both_see_stale] both read the expired stamp before either
    deletes, and the second caller then deletes the marker the first has
    just created. *)
Theorem stale_marker_admits_two_holders (l : Locker) (path : string) (w : World)
    (mt : time.Time) :
  files w !! lockfile l path = Some mt →
  expired l mt w = true →
  returned <$> (sched both_see_stale (w, [Lock l path; Lock l path])).2
    = [Some None; Some None].
Proof.
  intros Hq He. unfold expired in He. unfold both_see_stale.
  repeat (turn; rewrite ?Hq, ?He; with_strategy opaque [sched] cbn).
  reflexivity.
Qed.

Lemma stale_marker_admits_two_holders_witness :
  files stale !! lockfile dirLocker "job" = None ∧
  files (stamped "locks/job" 0 stale) !! lockfile dirLocker "job" = Some 0 ∧
  expired dirLocker 0 (stamped "locks/job" 0 stale) = true ∧
  returned <$> (sched both_see_stale
                  (stamped "locks/job" 0 stale,
                   [Lock dirLocker "job"; Lock dirLocker "job"])).2
    = [Some None; Some None].
Proof.
  split; [reflexivity|]. split; [reflexivity|]. split; [reflexivity|].
  apply (stale_marker_admits_two_holders dirLocker "job" (stamped "locks/job" 0 stale) 0);
    reflexivity.
Defined.

(** X15. [Refresh] against [Lock].  Whenever the marker is expired, a
    [Refresh] that runs concurrently with a [Lock] can delete the marker the
    [Lock] has just created: on the schedule [late_delete] the [Lock]
    returns nil, the [Refresh] returns [ErrNotLocked], and no marker is
    left, so that the path is free although a caller has been told it
    holds the lock. *)
Theorem Refresh_can_delete_a_fresh_lock (l : Locker) (path : string) (w : World)
    (mt : time.Time) :
  files w !! lockfile l path = Some mt →
  expired l mt w = true →
  returned <$> (sched late_delete (w, [Refresh l path; Lock l path])).2
    = [Some (Some ErrNotLocked); Some None] ∧
  files (sched late_delete (w, [Refresh l path; Lock l path])).1 !! lockfile l path = None.
Proof.
  intros Hq He. unfold expired in He. unfold late_delete.
  repeat (turn; rewrite ?Hq, ?He; with_strategy opaque [sched] cbn).
  cbn. rewrite lookup_delete_eq. done.
Qed.

Lemma Refresh_can_delete_a_fresh_lock_witness :
  files stale !! lockfile zeroLocker "job" = Some 0 ∧
  expired zeroLocker 0 stale = true ∧
  returned <$> (sched late_delete
                  (stale, [Refresh zeroLocker "job"; Lock zeroLocker "job"])).2
    = [Some (Some ErrNotLocked); Some None] ∧
  files (sched late_delete
           (stale, [Refresh zeroLocker "job"; Lock zeroLocker "job"])).1
    !! lockfile zeroLocker "job" = None.
Proof.
  split; [reflexivity|]. split; [reflexivity|].
  apply (Refresh_can_delete_a_fresh_lock zeroLocker "job" stale 0); reflexivity.
Defined.

(** X16. After an [Unlock] there is nothing to refresh: a [Refresh] by any
    [Locker] that uses the same marker returns [ErrNotLocked] and leaves the
    path without a marker. *)
Theorem Unlock_then_Refresh_not_locked (l l' : Locker) (path : string) (w : World) :
  lockfile l' path = lockfile l path →
  result (run (Refresh l' path) (world (run (Unlock l path) w))) = Some ErrNotLocked ∧
  files (world (run (Refresh l' path) (world (run (Unlock l path) w))))
    !! lockfile l path = None.
Proof.
  intros Hq. rewrite run_Refresh, Hq, run_Unlock.
  destruct (files w !! lockfile l path) as [mt|] eqn:Hw; cbn.
  - rewrite lookup_delete_eq. cbn. by rewrite lookup_delete_eq.
  - by rewrite Hw.
Qed.

Lemma Unlock_then_Refresh_not_locked_witness :
  lockfile zeroLocker "job" = lockfile zeroLocker "job" ∧
  result (run (Refresh zeroLocker "job")
            (world (run (Unlock zeroLocker "job") (marked_at_age 1)))) = Some ErrNotLocked ∧
  files (world (run (Refresh zeroLocker "job")
            (world (run (Unlock zeroLocker "job") (marked_at_age 1)))))
    !! lockfile zeroLocker "job" = None.
Proof.
  split; [reflexivity|].
  apply (Unlock_then_Refresh_not_locked zeroLocker zeroLocker "job" (marked_at_age 1)).
  reflexivity.
Defined.
